(** * Shallow embedding of the partner normalisation and bucketing
      pipeline of [app.py] (used-car-dashboard).

    Modelling choices:
    - strings are [String.string] (bytes); Python's [str.lower], [str.strip]
      and [str.split] are modelled on ASCII, with Python's ASCII whitespace
      set (\t \n \v \f \r, \x1c-\x1f and space);
    - a table is its header list and its rows (lists of cells, positional);
      [df[name]] reads the column with that header, and [normalize_partners]
      raises when a label it reads names several columns;
    - a number parsed from text is the exact rational [Q] it denotes; the
      float sum of a column is a parameter [float_sum] of [revenue];
    - timestamps are [Z] seconds since the epoch; a day is 86400 s;
    - pandas' permissive [to_datetime(..., errors="coerce", dayfirst=False)]
      is library code whose format inference works per column: it is a
      parameter [fallback_parse] of the pipeline. *)

From Stdlib Require Import List Bool ZArith QArith Qround Qabs Lia Lqa Permutation Sorted.
From Stdlib Require Import Strings.String Strings.Ascii.
Import ListNotations.
Open Scope string_scope.

(** ** Characters and Python string methods *)

(** Python's [str.isspace] on ASCII. *)
Definition is_space (c : ascii) : bool :=
  let n := nat_of_ascii c in
  ((9 <=? n) && (n <=? 13))%nat || ((28 <=? n) && (n <=? 32))%nat.

(** [str.lower] on one ASCII character. *)
Definition lower_char (c : ascii) : ascii :=
  let n := nat_of_ascii c in
  if ((65 <=? n) && (n <=? 90))%nat then ascii_of_nat (n + 32) else c.

Fixpoint lower (s : string) : string :=
  match s with
  | EmptyString => EmptyString
  | String c s' => String (lower_char c) (lower s')
  end.

Fixpoint lstrip (s : string) : string :=
  match s with
  | EmptyString => EmptyString
  | String c s' => if is_space c then lstrip s' else s
  end.

Fixpoint rev_str (s : string) (acc : string) : string :=
  match s with
  | EmptyString => acc
  | String c s' => rev_str s' (String c acc)
  end.

(** [str.strip()]: drop leading and trailing whitespace. *)
Definition strip (s : string) : string :=
  rev_str (lstrip (rev_str (lstrip s) EmptyString)) EmptyString.

(** [str.split()] with no separator: maximal runs of non-whitespace. *)
Fixpoint split_aux (s : string) (cur : string) : list string :=
  match s with
  | EmptyString => if String.eqb cur "" then [] else [cur]
  | String c s' =>
      if is_space c
      then (if String.eqb cur "" then split_aux s' "" else cur :: split_aux s' "")
      else split_aux s' (cur ++ String c "")
  end.

Definition split_ws (s : string) : list string := split_aux s "".

(** Python truthiness of a string. *)
Definition truthy (s : string) : bool := negb (String.eqb s "").

(** ** Column resolution (app.py, lines 32-58) *)

Definition RENEWAL_COLUMN := "Actual renewal date".
Definition PARTNER_COLUMN := "Dealership Group Name".
Definition FACEBOOK_COHORT := "Facebook Group cohort".
Definition OTHER_COHORT := "All Other Partners".

(** [normalize_colname(name) = " ".join(str(name).strip().lower().split())] *)
Definition normalize_colname (name : string) : string :=
  String.concat " " (split_ws (lower (strip name))).

(** The dict [{normalize_colname(c): c for c in df.columns}]: later
    columns overwrite earlier ones, so the newest binding is kept first. *)
Definition normalized_to_actual (cols : list string) : list (string * string) :=
  fold_left (fun d c => (normalize_colname c, c) :: d) cols [].

Fixpoint dict_get (d : list (string * string)) (k : string) : option string :=
  match d with
  | [] => None
  | (k', v) :: d' => if String.eqb k k' then Some v else dict_get d' k
  end.

Fixpoint resolve_loop (d : list (string * string)) (wanted : list string)
  : option string :=
  match wanted with
  | [] => None
  | w :: ws =>
      match dict_get d (normalize_colname w) with
      | Some m => if truthy m then Some m else resolve_loop d ws
      | None => resolve_loop d ws
      end
  end.

(** [resolve_column(df, target, aliases)]; [aliases=None] is the empty list. *)
Definition resolve_column (cols : list string) (target : string)
    (aliases : list string) : option string :=
  resolve_loop (normalized_to_actual cols) (target :: aliases).

Definition renewal_aliases :=
  ["Actual Renewal Date"; "Renewal Date"; "renewal date"].

(** [resolve_renewal_column(df)], with its fallback to column M. *)
Definition resolve_renewal_column (cols : list string) : option string :=
  let fallback := if (13 <=? List.length cols)%nat then nth_error cols 12 else None in
  match resolve_column cols RENEWAL_COLUMN renewal_aliases with
  | Some r => if truthy r then Some r else fallback
  | None => fallback
  end.

(** The required-column check of [main] (lines 368-380). *)
Definition missing_columns (cols : list string) : list string :=
  (match resolve_column cols PARTNER_COLUMN [] with
   | None => [PARTNER_COLUMN] | Some _ => [] end) ++
  (match resolve_renewal_column cols with
   | None => [RENEWAL_COLUMN] | Some _ => [] end).

(** ** Cells, numbers and timestamps *)

(** A cell as pandas holds it: missing (NaN/None), a string, a number
    (kept as its Python [str()] text, which [float()] reads back exactly),
    or a Timestamp in seconds since the epoch. *)
Inductive cell :=
| CNA
| CStr (s : string)
| CNum (repr : string)
| CTime (t : Z).

Definition is_digit (c : ascii) : bool :=
  ((48 <=? nat_of_ascii c) && (nat_of_ascii c <=? 57))%nat.

Definition digit_val (c : ascii) : Z := Z.of_nat (nat_of_ascii c) - 48.

Fixpoint take_digits (l : list ascii) (acc : Z) (n : nat) : Z * nat * list ascii :=
  match l with
  | c :: l' => if is_digit c then take_digits l' (acc * 10 + digit_val c) (S n)
               else (acc, n, l)
  | [] => (acc, n, [])
  end.

(** Optional exponent [e[+-]ddd] followed by the end of the text. *)
Definition parse_exp (l : list ascii) : option Z :=
  match l with
  | [] => Some 0%Z
  | c :: r =>
      if (c =? "e")%char || (c =? "E")%char then
        let '(sg, r1) := match r with
                         | d :: r' => if (d =? "-")%char then ((-1)%Z, r')
                                      else if (d =? "+")%char then (1%Z, r')
                                      else (1%Z, r)
                         | [] => (1%Z, [])
                         end in
        let '(e, ne, r2) := take_digits r1 0 0 in
        match ne, r2 with
        | S _, [] => Some (sg * e)%Z
        | _, _ => None
        end
      else None
  end.

Definition make_q (m : Z) (e : Z) : Q :=
  if (0 <=? e)%Z then inject_Z (m * 10 ^ e) else Qmake m (Z.to_pos (10 ^ (- e))).

(** The number grammar [pd.to_numeric] accepts on a string
    (pandas' [xstrtod]): surrounding whitespace, a sign, digits with an
    optional fraction (at least one digit) and an optional exponent.
    Anything else is coerced to "no value". *)
Definition parse_float (s : string) : option Q :=
  let l := list_ascii_of_string (strip s) in
  let '(sg, l1) := match l with
                   | c :: r => if (c =? "-")%char then ((-1)%Z, r)
                               else if (c =? "+")%char then (1%Z, r)
                               else (1%Z, l)
                   | [] => (1%Z, [])
                   end in
  let '(ip, ni, l2) := take_digits l1 0 0 in
  let '(m, nf, l3) := match l2 with
                      | c :: r => if (c =? ".")%char then take_digits r ip 0
                                  else (ip, O, l2)
                      | [] => (ip, O, [])
                      end in
  if (ni + nf =? 0)%nat then None
  else match parse_exp l3 with
       | Some e => Some (make_q (sg * m) (e - Z.of_nat nf))
       | None => None
       end.

(** [pd.to_numeric(value, errors="coerce")] on one cell. *)
Definition to_numeric (c : cell) : option Q :=
  match c with
  | CNA => None
  | CStr s => parse_float s
  | CNum r => parse_float r
  | CTime _ => None
  end.

(** Decimal digits of a natural number given as [Z]. *)
Definition digit_char (d : Z) : ascii := ascii_of_nat (Z.to_nat d + 48).

Fixpoint digits_rev (fuel : nat) (n : Z) : list ascii :=
  match fuel with
  | O => []
  | S f => digit_char (n mod 10) ::
             (if (n <? 10)%Z then [] else digits_rev f (n / 10))
  end.

Definition show_nat (n : Z) : string :=
  string_of_list_ascii (rev (digits_rev (S (Z.to_nat (Z.log2 n))) n)).

Fixpoint zeros (k : nat) : string :=
  match k with O => "" | S k' => String "0" (zeros k') end.

Definition pad (w : nat) (n : Z) : string :=
  let s := show_nat n in zeros (w - String.length s) ++ s.

(** Proleptic Gregorian calendar: days since 1970-01-01. *)
Definition days_from_civil (y m d : Z) : Z :=
  let y' := if (m <=? 2)%Z then (y - 1)%Z else y in
  let era := (y' / 400)%Z in
  let yoe := (y' - era * 400)%Z in
  let mp := if (2 <? m)%Z then (m - 3)%Z else (m + 9)%Z in
  let doy := ((153 * mp + 2) / 5 + d - 1)%Z in
  let doe := (yoe * 365 + yoe / 4 - yoe / 100 + doy)%Z in
  (era * 146097 + doe - 719468)%Z.

Definition civil_from_days (z0 : Z) : Z * Z * Z :=
  let z := (z0 + 719468)%Z in
  let era := (z / 146097)%Z in
  let doe := (z - era * 146097)%Z in
  let yoe := ((doe - doe / 1460 + doe / 36524 - doe / 146096) / 365)%Z in
  let doy := (doe - (365 * yoe + yoe / 4 - yoe / 100))%Z in
  let mp := ((5 * doy + 2) / 153)%Z in
  let d := (doy - (153 * mp + 2) / 5 + 1)%Z in
  let m := if (mp <? 10)%Z then (mp + 3)%Z else (mp - 9)%Z in
  let y := (yoe + era * 400)%Z in
  (if (m <=? 2)%Z then (y + 1)%Z else y, m, d).

Definition DAY : Z := 86400.

(** [str(Timestamp)]: ["YYYY-MM-DD HH:MM:SS"]. *)
Definition timestamp_str (t : Z) : string :=
  let '(y, m, d) := civil_from_days (t / DAY) in
  let s := (t mod DAY)%Z in
  pad 4 y ++ "-" ++ pad 2 m ++ "-" ++ pad 2 d ++ " " ++
  pad 2 (s / 3600) ++ ":" ++ pad 2 ((s / 60) mod 60) ++ ":" ++ pad 2 (s mod 60).

Definition leap (y : Z) : bool :=
  ((y mod 4 =? 0) && negb (y mod 100 =? 0) || (y mod 400 =? 0))%Z.

Definition days_in_month (y m : Z) : Z :=
  if (m =? 2)%Z then (if leap y then 29 else 28)%Z
  else if (m =? 4)%Z || (m =? 6)%Z || (m =? 9)%Z || (m =? 11)%Z then 30%Z
  else 31%Z.

(** [pd.to_datetime(s, format="%Y-%m-%d", errors="coerce")] on a string:
    four year digits, then one or two month and day digits, nothing else. *)
Definition parse_iso (s : string) : option Z :=
  let l := list_ascii_of_string s in
  let '(y, ny, l1) := take_digits l 0 0 in
  match ny, l1 with
  | 4%nat, c1 :: l2 =>
      if (c1 =? "-")%char then
        let '(m, nm, l3) := take_digits l2 0 0 in
        match l3 with
        | c2 :: l4 =>
            if (c2 =? "-")%char && ((1 <=? nm) && (nm <=? 2))%nat then
              let '(d, nd, l5) := take_digits l4 0 0 in
              match l5 with
              | [] =>
                  if ((1 <=? nd) && (nd <=? 2))%nat && (1 <=? m)%Z && (m <=? 12)%Z
                     && (1 <=? d)%Z && (d <=? days_in_month y m)%Z
                  then Some (days_from_civil y m d * DAY)%Z
                  else None
              | _ => None
              end
            else None
        | [] => None
        end
      else None
  | _, _ => None
  end.

(** The strict parse of one renewal cell: Timestamps pass through. *)
Definition strict_parse (c : cell) : option Z :=
  match c with
  | CTime t => Some t
  | CStr s => parse_iso s
  | _ => None
  end.

(** ** Tables and the derived columns of [normalize_partners] *)

Record table := mk_table { columns : list string; rows : list (list cell) }.

Fixpoint index_of (h : string) (cols : list string) : option nat :=
  match cols with
  | [] => None
  | c :: cs => if String.eqb h c then Some O
               else option_map S (index_of h cs)
  end.

(** [row[name]]: the cell under the header [name] (the first one, if
    several share it). For a repeated label pandas gives a whole frame,
    on which the code raises; [normalize_partners] models this before it
    reads a label (see [duplicated_label]). *)
Definition cell_at (cols : list string) (name : string) (r : list cell) : cell :=
  match index_of name cols with
  | Some i => nth i r CNA
  | None => CNA
  end.

Definition column (cols : list string) (rs : list (list cell)) (name : string)
  : list cell := map (cell_at cols name) rs.

(** [name in df.columns]: exact, case-sensitive membership. *)
Definition has_column (cols : list string) (name : string) : bool :=
  existsb (String.eqb name) cols.

(** [df.rename(columns={old: new})]. *)
Definition rename_col (cols : list string) (old new : string) : list string :=
  map (fun h => if String.eqb h old then new else h) cols.

(** [lambda v: FACEBOOK_COHORT if v in (15.0, 18.0) else OTHER_COHORT];
    NaN is equal to neither. *)
Definition cohort_of_value (v : option Q) : string :=
  match v with
  | Some q => if Qeq_bool q 15 || Qeq_bool q 18 then FACEBOOK_COHORT else OTHER_COHORT
  | None => OTHER_COHORT
  end.

(** The [Cohort] column (lines 113-119). *)
Definition cohort_col (cols : list string) (rs : list (list cell)) : list string :=
  if has_column cols "CPL"
  then map cohort_of_value (map to_numeric (column cols rs "CPL"))
  else map (fun _ => OTHER_COHORT) rs.

Definition keep_cost_char (c : ascii) : bool :=
  is_digit c || (c =? ".")%char || (c =? "-")%char.

(** [.str.replace(r"[^0-9.-]", "", regex=True)] *)
Fixpoint clean_cost (s : string) : string :=
  match s with
  | EmptyString => EmptyString
  | String c s' => if keep_cost_char c then String c (clean_cost s') else clean_cost s'
  end.

(** [.astype(str)] on one cell, as pandas 2 does it: a missing value
    becomes the text "nan" (pandas 3 keeps it missing instead). *)
Definition astype_str (c : cell) : string :=
  match c with
  | CNA => "nan"
  | CStr s => s
  | CNum r => r
  | CTime t => timestamp_str t
  end.

Definition COST_COLUMN := "Monthly subscription cost".

(** The [Monthly subscription cost numeric] column (lines 121-129). *)
Definition cost_col (cols : list string) (rs : list (list cell)) : list (option Q) :=
  if has_column cols COST_COLUMN
  then map (fun c => to_numeric (CStr (clean_cost (astype_str c)))) (column cols rs COST_COLUMN)
  else map (fun _ => None) rs.

(** [parsed_iso.fillna(parsed_fallback)] *)
Fixpoint fillna (a b : list (option Z)) : list (option Z) :=
  match a with
  | [] => []
  | x :: a' =>
      let '(y, b') := match b with [] => (None, []) | y :: b' => (y, b') end in
      (match x with Some _ => x | None => y end) :: fillna a' b'
  end.

(** A row of [out] before [dropna]. *)
Record erow := mk_erow {
  e_cells : list cell;
  e_name : cell;
  e_working : option Z;
  e_cohort : string;
  e_cost : option Q }.

(** A retained row of the working table. *)
Record nrow := mk_nrow {
  n_cells : list cell;
  n_name : cell;
  n_working : Z;
  n_cohort : string;
  n_cost : option Q;
  n_days : Z }.

Fixpoint build_erows (rs : list (list cell)) (names : list cell) (ws : list (option Z))
    (cs : list string) (ks : list (option Q)) : list erow :=
  match rs, names, ws, cs, ks with
  | r :: rs', n :: names', w :: ws', c :: cs', k :: ks' =>
      mk_erow r n w c k :: build_erows rs' names' ws' cs' ks'
  | _, _, _, _, _ => []
  end.

(** [(ts.normalize() - as_of_date).days]: floor to midnight, then whole
    days of the difference, rounded down. *)
Definition days_to_renewal (t as_of : Z) : Z := ((t / DAY) * DAY - as_of) / DAY.

(** [dropna(subset=[partner, working])] followed by [Days to Renewal]. *)
Fixpoint drop_missing (as_of : Z) (es : list erow) : list nrow :=
  match es with
  | [] => []
  | e :: es' =>
      match e_name e, e_working e with
      | CNA, _ => drop_missing as_of es'
      | _, None => drop_missing as_of es'
      | nm, Some t =>
          mk_nrow (e_cells e) nm t (e_cohort e) (e_cost e) (days_to_renewal t as_of)
            :: drop_missing as_of es'
      end
  end.

(** ** Sorting ([DataFrame.sort_values], a stable sort on several keys) *)

Definition cell_rank (c : cell) : nat :=
  match c with CNA => 0 | CNum _ => 1 | CStr _ => 2 | CTime _ => 3 end.

Definition num_key (r : string) : Q :=
  match parse_float r with Some q => q | None => 0 end.

(** Order of the partner-name column: strings lexically by character code. *)
Definition cell_compare (a b : cell) : comparison :=
  match a, b with
  | CStr x, CStr y => String.compare x y
  | CNum x, CNum y => Qcompare (num_key x) (num_key y)
  | CTime x, CTime y => Z.compare x y
  | _, _ => Nat.compare (cell_rank a) (cell_rank b)
  end.

Definition lex (c1 c2 : comparison) : comparison :=
  match c1 with Eq => c2 | _ => c1 end.

Section Sort.
Variable A : Type.
Variable cmp : A -> A -> comparison.

Fixpoint insert_by (x : A) (l : list A) : list A :=
    match l with
    | [] => [x]
    | y :: l' => match cmp x y with
                 | Gt => y :: insert_by x l'
                 | _ => x :: l
                 end
    end.

Fixpoint sort_by (l : list A) : list A :=
    match l with
    | [] => []
    | x :: l' => insert_by x (sort_by l')
    end.
End Sort.
Arguments insert_by {A} cmp x l.
Arguments sort_by {A} cmp l.

(** Keys [["Renewal Date (Working)", "Dealership Group Name"]]. *)
Definition cmp_working (a b : nrow) : comparison :=
  lex (Z.compare (n_working a) (n_working b)) (cell_compare (n_name a) (n_name b)).

(** Keys [["Days to Renewal", "Renewal Date (Working)", "Dealership Group Name"]]
    of [display_partner_table], the date being [.dt.date]. *)
Definition cmp_display (a b : nrow) : comparison :=
  lex (Z.compare (n_days a) (n_days b))
      (lex (Z.compare (n_working a / DAY) (n_working b / DAY))
           (cell_compare (n_name a) (n_name b))).

(** ** [normalize_partners] (lines 96-136) *)

(** The exceptions [normalize_partners] raises: the two [KeyError]s, and
    the errors pandas raises when a label read as one column names several
    ([pd.to_datetime] or [pd.to_numeric] of a frame, [.str] or [.dt] of a
    frame, [sort_values] on a non-unique label). *)
Inductive norm_error := MissingPartnerColumn | MissingRenewalColumn | DuplicateLabel (label : string).

Inductive result (A : Type) := Ok (a : A) | Err (e : norm_error).
Arguments Ok {A} a.
Arguments Err {A} e.

(** How many headers equal [name]. *)
Definition count_label (cols : list string) (name : string) : nat :=
  List.length (filter (String.eqb name) cols).

(** The labels [normalize_partners] reads as a single column, in the order
    it reads them: the renewal column (line 110), [CPL] and then
    [CPL_numeric] when [CPL] is present (lines 114-116), the cost column
    when present (lines 123-126), [Renewal Date (Working)] (line 132) and
    the partner column (line 133). An assignment to a label that exists
    only overwrites it, so the other added columns never raise. *)
Definition single_labels (cols : list string) (rc : string) : list string :=
  [rc] ++ (if has_column cols "CPL" then ["CPL"; "CPL_numeric"] else [])
  ++ (if has_column cols COST_COLUMN then [COST_COLUMN] else [])
  ++ ["Renewal Date (Working)"; PARTNER_COLUMN].

(** The first of them that names more than one column, if any. *)
Definition duplicated_label (cols : list string) (rc : string) : option string :=
  find (fun h => (1 <? count_label cols h)%nat) (single_labels cols rc).

Section Pipeline.
  (** [pd.to_datetime(raw_renewal, errors="coerce", dayfirst=False)]: a
      function of the whole column, since pandas infers one format for the
      column from its values. *)
Variable fallback_parse : list cell -> list (option Z).

Definition working_col (raw : list cell) : list (option Z) :=
    fillna (map strict_parse raw) (fallback_parse raw).

Definition enrich (cols : list string) (rcol : string) (rs : list (list cell))
    : list erow :=
    build_erows rs (column cols rs PARTNER_COLUMN)
      (working_col (column cols rs rcol)) (cohort_col cols rs) (cost_col cols rs).

  (** The headers of [out] after the partner column is renamed, and the
      renewal column resolved on them. *)
Definition prepare (cols : list string) : result (list string * string) :=
    match resolve_column cols PARTNER_COLUMN [] with
    | None => Err MissingPartnerColumn
    | Some pc =>
        let cols' := if String.eqb pc PARTNER_COLUMN then cols
                     else rename_col cols pc PARTNER_COLUMN in
        match resolve_renewal_column cols' with
        | None => Err MissingRenewalColumn
        | Some rc => Ok (cols', rc)
        end
    end.

  (** The rows of [out] just before [dropna]. *)
Definition enriched (tbl : table) : result (list erow) :=
    match prepare (columns tbl) with
    | Err e => Err e
    | Ok (cols', rc) =>
        match duplicated_label cols' rc with
        | Some h => Err (DuplicateLabel h)
        | None => Ok (enrich cols' rc (rows tbl))
        end
    end.

Definition normalize_partners (tbl : table) (as_of : Z) : result (list nrow) :=
    match enriched tbl with
    | Err e => Err e
    | Ok es => Ok (sort_by cmp_working (drop_missing as_of es))
    end.
End Pipeline.

(** An instance of [fallback_parse] used in the examples: element-wise,
    month first, [M/D/YYYY]; Timestamps pass through. *)
Definition parse_mdy (s : string) : option Z :=
  let '(m, nm, l1) := take_digits (list_ascii_of_string s) 0 0 in
  match l1 with
  | c1 :: l2 =>
      let '(d, nd, l3) := take_digits l2 0 0 in
      match l3 with
      | c2 :: l4 =>
          let '(y, ny, l5) := take_digits l4 0 0 in
          if (c1 =? "/")%char && (c2 =? "/")%char && ((1 <=? nm) && (nm <=? 2))%nat
             && ((1 <=? nd) && (nd <=? 2))%nat && (ny =? 4)%nat
             && (match l5 with [] => true | _ => false end)
             && (1 <=? m)%Z && (m <=? 12)%Z && (1 <=? d)%Z && (d <=? days_in_month y m)%Z
          then Some (days_from_civil y m d * DAY)%Z else None
      | [] => None
      end
  | [] => None
  end.

Definition mdy_fallback (raw : list cell) : list (option Z) :=
  map (fun c => match c with
                | CStr s => parse_mdy s
                | CTime t => Some t
                | _ => None
                end) raw.

(** ** Buckets, revenue and presentation ([main], lines 385-418) *)

Definition in_range (min_days max_days : Z) (r : nrow) : bool :=
  (min_days <=? n_days r)%Z && (n_days r <=? max_days)%Z.

(** [renewal_bucket(df, min_days, max_days)] (lines 181-182). *)
Definition renewal_bucket (l : list nrow) (min_days max_days : Z) : list nrow :=
  filter (in_range min_days max_days) l.

Definition is_overdue (r : nrow) : bool := (n_days r <? 0)%Z.
Definition is_over_90 (r : nrow) : bool := (90 <? n_days r)%Z.

Definition overdue (l : list nrow) : list nrow := filter is_overdue l.
Definition in_30 (l : list nrow) : list nrow := renewal_bucket l 0 30.
Definition in_60 (l : list nrow) : list nrow := renewal_bucket l 31 60.
Definition in_90 (l : list nrow) : list nrow := renewal_bucket l 61 90.
Definition over_90 (l : list nrow) : list nrow := filter is_over_90 l.

(** The rows [display_partner_table] shows and exports for a bucket. *)
Definition display_rows (l : list nrow) : list nrow := sort_by cmp_display l.

(** A row's cleaned cost, "no value" read as 0: [fillna(0)]. *)
Definition cost_or_zero (r : nrow) : Q :=
  match n_cost r with Some q => q | None => 0 end.

Section Revenue.
(** [Series.sum()] of a float column: numpy's float64 summation, whose
    grouping of the additions and rounding of each partial sum are not
    modelled; the model takes it as a parameter. *)
Variable float_sum : list Q -> Q.

(** [df["Monthly subscription cost numeric"].fillna(0).sum()] *)
Definition revenue (l : list nrow) : Q := float_sum (map cost_or_zero l).
End Revenue.

(** Python's [round(x)]: nearest integer, ties to even. *)
Definition round_half_even (q : Q) : Z :=
  let f := Qfloor q in
  match Qcompare (q - inject_Z f) (1 # 2) with
  | Lt => f
  | Gt => (f + 1)%Z
  | Eq => if Z.even f then f else (f + 1)%Z
  end.

(** Digits least significant first, a comma after every third one
    that is followed by more digits. *)
Fixpoint group_rev (l : list ascii) : list ascii :=
  match l with
  | a :: b :: c :: ((_ :: _) as rest) => a :: b :: c :: ","%char :: group_rev rest
  | _ => l
  end.

(** [f"{n:,}"] for a Python int. *)
Definition group_thousands (z : Z) : string :=
  (if (z <? 0)%Z then "-" else "") ++
  string_of_list_ascii (rev (group_rev (digits_rev (S (Z.to_nat (Z.log2 (Z.abs z)))) (Z.abs z)))).

(** The pound sign, UTF-8 encoded. *)
Definition POUND : string := String (ascii_of_nat 194) (String (ascii_of_nat 163) "").

(** [format_currency(value) = f"£{round(value):,}"] *)
Definition format_currency (v : Q) : string := POUND ++ group_thousands (round_half_even v).

(** ** Row bookkeeping used by the statements *)

(** The [dropna] test: partner name present and working date parsed. *)
Definition keep_row (e : erow) : bool :=
  match e_name e, e_working e with
  | CNA, _ => false
  | _, None => false
  | _, Some _ => true
  end.

(** The enriched row a retained row comes from. *)
Definition origin (r : nrow) : erow :=
  mk_erow (n_cells r) (n_name r) (Some (n_working r)) (n_cohort r) (n_cost r).

(** Ascending by working renewal timestamp, then by partner name. *)
Definition working_order (a b : nrow) : Prop :=
  (n_working a < n_working b)%Z \/
  ((n_working a = n_working b)%Z /\ cell_compare (n_name a) (n_name b) <> Gt).

(** Ascending by calendar date of the working renewal date, then by name. *)
Definition date_order (a b : nrow) : Prop :=
  (n_working a / DAY < n_working b / DAY)%Z \/
  ((n_working a / DAY = n_working b / DAY)%Z /\ cell_compare (n_name a) (n_name b) <> Gt).

(** The text of a number with its thousands separators removed. *)
Fixpoint strip_commas (s : string) : string :=
  match s with
  | EmptyString => EmptyString
  | String c s' => if (c =? ",")%char then strip_commas s' else String c (strip_commas s')
  end.

Definition not_comma (c : ascii) : bool := negb (c =? ",")%char.

(** The end-to-end table of the spec's testable properties. *)
Definition tbl_spec := mk_table ["Dealership Group Name"; "Actual renewal date"; "CPL"; "Monthly subscription cost"]
  [[CStr "A"; CStr "2024-01-01"; CNum "15"; CStr (POUND ++ "100")];
   [CStr "B"; CStr "2024-02-15"; CNum "7"; CStr ""]].

(** A live-sheet table: blank cells arrive as empty strings. *)
Definition tbl_blank := mk_table [PARTNER_COLUMN; RENEWAL_COLUMN]
  [[CStr ""; CStr "2024-03-15"]; [CStr "   "; CStr "2024-03-16"];
   [CNA; CStr "2024-03-17"]; [CStr "C"; CStr "not-a-date"]].

(** ** Loading the sheet ([read_partner_sheet], [read_partner_sheet_live]) *)

Definition is_na (c : cell) : bool := match c with CNA => true | _ => false end.

(** Whether column [i] holds a non-missing cell; cells a short row lacks
    are missing, as when pandas pads it. *)
Definition col_has_value (rs : list (list cell)) (i : nat) : bool :=
  existsb (fun r => negb (is_na (nth i r CNA))) rs.

(** [df.dropna(axis=1, how="all")]: a column is kept when one of its cells
    is not missing; a frame with no rows keeps no column. *)
Definition dropna_cols (t : table) : table :=
  let ks := filter (col_has_value (rows t)) (seq 0 (List.length (columns t))) in
  mk_table (map (fun i => nth i (columns t) "") ks)
           (map (fun r => map (fun i => nth i r CNA) ks) (rows t)).

(** [df.dropna(how="all")]: a row is dropped when every cell is missing. *)
Definition dropna_rows (t : table) : table :=
  mk_table (columns t) (filter (fun r => negb (forallb is_na r)) (rows t)).

(** [df.columns = [str(c).strip() for c in df.columns]]; the headers are
    given as their [str()] text. *)
Definition strip_headers (t : table) : table :=
  mk_table (map strip (columns t)) (rows t).

(** [read_partner_sheet(path)], from the sheet [pd.read_excel] returns. *)
Definition read_partner_sheet (sheet : table) : table :=
  dropna_rows (strip_headers (dropna_cols sheet)).

(** [read_partner_sheet_live], from [ws.get_all_values()]: a list of rows
    of strings, blank cells being empty strings. *)
Definition read_partner_sheet_live (values : list (list string)) : table :=
  match values with
  | [] => mk_table [] []
  | hdr :: data =>
      dropna_rows (dropna_cols (mk_table (map strip hdr) (map (map CStr) data)))
  end.

(** ** [require_login] (lines 253-279) and the logout button of [main] *)

Definition ALLOWED_NAME := "Alyx".
Definition ALLOWED_PIN := "1020".

(** [st.session_state]: a key may be absent. *)
Record session := mk_session {
  s_authenticated : option bool;
  s_viewer_name : option string }.

Definition empty_session := mk_session None None.

(** How a run of [require_login] ends: it returns the viewer name, calls
    [st.stop()] (after an optional error message), or calls [st.rerun()]. *)
Inductive login_result :=
| Proceed (viewer : string)
| Stopped (error : option string)
| Rerun.

(** One run of [require_login]; [submit], [name] and [pin] are what the
    login form returns. *)
Definition require_login (s : session) (submit : bool) (name pin : string)
    : session * login_result :=
  let auth := match s_authenticated s with Some b => b | None => false end in
  let viewer := match s_viewer_name s with Some v => v | None => "" end in
  let s1 := mk_session (Some auth) (Some viewer) in
  if auth then (s1, Proceed viewer)
  else if submit then
    if negb (truthy (strip name)) then (s1, Stopped (Some "Name is required."))
    else if negb (String.eqb (strip name) ALLOWED_NAME) || negb (String.eqb pin ALLOWED_PIN)
    then (s1, Stopped (Some "Invalid name or PIN."))
    else (mk_session (Some true) (Some ALLOWED_NAME), Rerun)
  else (s1, Stopped None).

(** The logout button of [main] (lines 292-295). *)
Definition logout (s : session) : session := mk_session (Some false) (Some "").

(** Sessions a browser can reach: runs of [require_login] with any form
    input, and logouts. *)
Inductive reachable : session -> Prop :=
| reach_init : reachable empty_session
| reach_login : forall s submit name pin,
    reachable s -> reachable (fst (require_login s submit name pin))
| reach_logout : forall s, reachable s -> reachable (logout s).

(** ** The working table's headers and [apply_filters] (lines 139-178) *)

(** The headers of the frame [normalize_partners] returns, from the
    headers [cols] after the rename: assigning a new column appends it,
    assigning an existing one replaces it in place. *)
Definition added_columns (cols : list string) : list string :=
  ["Renewal Date (Working)"] ++
  (if has_column cols "CPL" then ["CPL_numeric"] else []) ++
  ["Cohort"; "Monthly subscription cost numeric"; "Days to Renewal"].

Definition working_columns (cols : list string) : list string :=
  cols ++ filter (fun c => negb (has_column cols c)) (added_columns cols).

(** [.unique().tolist()]: first occurrences, in order. *)
Fixpoint unique_aux (seen : list string) (l : list string) : list string :=
  match l with
  | [] => []
  | x :: l' => if existsb (String.eqb x) seen then unique_aux seen l'
               else x :: unique_aux (x :: seen) l'
  end.

Definition unique (l : list string) : list string := unique_aux [] l.

(** Python's [sorted] on strings (code-point order, that of the UTF-8 bytes). *)
Definition sorted_str (l : list string) : list string := sort_by String.compare l.

(** [filtered[risk_col].astype(str).str.strip()] for one row; the risk
    column is a column of the sheet (no added header normalises to
    "risk banding"). *)
Definition risk_value (cols : list string) (h : string) (r : nrow) : string :=
  strip (astype_str (cell_at cols h (n_cells r))).

(** The options of the "Risk banding" multiselect: stripped values, with
    [""] replaced by NA and dropped, unique, sorted. *)
Definition risk_options (cols : list string) (h : string) (l : list nrow) : list string :=
  sorted_str (unique (filter truthy (map (risk_value cols h) l))).

Definition member (x : string) (l : list string) : bool := existsb (String.eqb x) l.

(** The risk step; [pick] is the multiselect, given its options
    (by default it returns them all). *)
Definition risk_filter (pick : list string -> list string) (cols : list string)
    (l : list nrow) : list nrow :=
  match resolve_column (working_columns cols) "Risk banding" [] with
  | Some h =>
      if truthy h then
        match pick (risk_options cols h l) with
        | [] => l
        | sel => filter (fun r => member (risk_value cols h r) sel) l
        end
      else l
  | None => l
  end.

Definition RATE_COLUMN := "CPL or Flat Rate".

Definition rate_cell (cols : list string) (r : nrow) : cell := cell_at cols RATE_COLUMN (n_cells r).

(** [sorted(filtered["CPL or Flat Rate"].dropna().astype(str).unique().tolist())] *)
Definition rate_options (cols : list string) (l : list nrow) : list string :=
  sorted_str (unique (map astype_str (filter (fun c => negb (is_na c)) (map (rate_cell cols) l)))).

(** The "CPL or Flat Rate" step. *)
Definition rate_filter (pick : list string -> list string) (cols : list string)
    (l : list nrow) : list nrow :=
  if has_column (working_columns cols) RATE_COLUMN then
    match pick (rate_options cols l) with
    | [] => l
    | sel => filter (fun r => member (astype_str (rate_cell cols r)) sel) l
    end
  else l.

Section Query.
(** [Series.str.contains(query, case=False, na=False)]: a case-insensitive
    regular-expression search, library code left as a parameter. *)
Variable str_contains_ci : string -> string -> bool.

(** The "Partner name contains" step. *)
Definition query_filter (query : string) (cols : list string) (l : list nrow) : list nrow :=
  if has_column (working_columns cols) PARTNER_COLUMN then
    if truthy query then filter (fun r => str_contains_ci query (astype_str (n_name r))) l
    else l
  else l.

(** [apply_filters(df)] on the working table with headers [cols]. *)
Definition apply_filters (pick_risk pick_rate : list string -> list string)
    (query : string) (cols : list string) (l : list nrow) : list nrow :=
  query_filter query cols (rate_filter pick_rate cols (risk_filter pick_risk cols l)).
End Query.

(** ** [display_partner_table], [display_bucket_by_cohort] and the summary *)

Definition preferred_cols : list string :=
  ["Dealership Group ID"; "Dealership Group Name"; "CPL or Flat Rate"; "CPL";
   "Cohort"; "Monthly subscription cost"; "Renewal Date (Working)"; "Days to Renewal"].

(** [[c for c in preferred_cols if c in df.columns]] *)
Definition display_columns (wcols : list string) : list string :=
  filter (has_column wcols) preferred_cols.

(** The table shown and exported, or [None] for "No partners in this bucket.". *)
Definition display_partner_table (cols : list string) (l : list nrow)
    : option (list string * list nrow) :=
  match l with
  | [] => None
  | _ => Some (display_columns (working_columns cols), display_rows l)
  end.

Definition cohort_rows (coh : string) (l : list nrow) : list nrow :=
  filter (fun r => String.eqb (n_cohort r) coh) l.

(** [df["Cohort"].value_counts().reindex([FACEBOOK_COHORT, OTHER_COHORT], fill_value=0)] *)
Definition cohort_counts (l : list nrow) : list (string * nat) :=
  map (fun coh => (coh, List.length (cohort_rows coh l))) [FACEBOOK_COHORT; OTHER_COHORT].

(** [display_bucket_by_cohort]: the counts, then the two tables. *)
Definition display_bucket_by_cohort (cols : list string) (l : list nrow)
    : list (string * nat) * option (list string * list nrow) * option (list string * list nrow) :=
  (cohort_counts l,
   display_partner_table cols (cohort_rows FACEBOOK_COHORT l),
   display_partner_table cols (cohort_rows OTHER_COHORT l)).

Definition shown_rows (t : option (list string * list nrow)) : list nrow :=
  match t with None => [] | Some (_, rs) => rs end.

(** A row of the "Renewals by Cohort" table of [main]. *)
Record summary_row := mk_summary {
  sm_cohort : string;
  sm_0_30 : nat;
  sm_31_60 : nat;
  sm_61_90 : nat;
  sm_overdue : nat;
  sm_90_plus : nat;
  sm_total : nat }.

Definition summary_row_of (l : list nrow) (coh : string) : summary_row :=
  let a := List.length (cohort_rows coh (in_30 l)) in
  let b := List.length (cohort_rows coh (in_60 l)) in
  let c := List.length (cohort_rows coh (in_90 l)) in
  let d := List.length (cohort_rows coh (overdue l)) in
  let e := List.length (cohort_rows coh (over_90 l)) in
  (* [Total]: the sum of "0-30", "31-60", "61-90", "90+" and "Overdue" *)
  mk_summary coh a b c d e (a + b + c + e + d)%nat.

Definition summary (l : list nrow) : list summary_row :=
  map (summary_row_of l) [FACEBOOK_COHORT; OTHER_COHORT].

(** [pd.Timestamp(as_of).normalize()] in [main]: midnight of the day. *)
Definition normalize_ts (t : Z) : Z := (t / DAY * DAY)%Z.

(** ** Predicates on strings used by the proofs *)

(** The first character, if any, is not whitespace. *)
Definition first_ok (s : string) : Prop :=
  match s with EmptyString => True | String c _ => is_space c = false end.

(** No character is whitespace or upper case. *)
Fixpoint word_chars (s : string) : Prop :=
  match s with
  | EmptyString => True
  | String c s' => is_space c = false /\ lower_char c = c /\ word_chars s'
  end.

(** * Proofs *)

(** ** Examples *)

Example e1 : parse_float "1250.00" = Some (make_q 125000 (-2)). Proof. reflexivity. Qed.
Example e2 : strict_parse (CStr "2024-03-15") = Some (days_from_civil 2024 3 15 * DAY)%Z. Proof. reflexivity. Qed.
Example e3 : timestamp_str (days_from_civil 2024 3 15 * DAY + 3661)%Z = "2024-03-15 01:01:01". Proof. reflexivity. Qed.
Example e4 : days_from_civil 1970 1 1 = 0%Z. Proof. reflexivity. Qed.
Example e5 : civil_from_days (days_from_civil 2000 2 29) = (2000, 2, 29)%Z. Proof. reflexivity. Qed.
Example e6 : group_thousands 1234567 = "1,234,567". Proof. reflexivity. Qed.
Example e7 : group_thousands (-123) = "-123". Proof. reflexivity. Qed.
Example e8 : group_thousands 0 = "0". Proof. reflexivity. Qed.
Example e9 : round_half_even (5#2) = 2%Z /\ round_half_even (7#2) = 4%Z /\ round_half_even (-5#2) = (-2)%Z. Proof. repeat split; reflexivity. Qed.
Example e10 : to_numeric (CStr (clean_cost (POUND ++ "1,250.00"))) = Some (make_q 125000 (-2)). Proof. reflexivity. Qed.
Example e11 : mdy_fallback [CStr "03/15/2024"; CStr "not-a-date"] = [Some (days_from_civil 2024 3 15 * DAY)%Z; None]. Proof. reflexivity. Qed.
Example e12 : match normalize_partners mdy_fallback tbl_spec (days_from_civil 2024 1 10 * DAY) with
  | Ok out => map n_days out = [(-9)%Z; 36%Z] /\ map n_cohort out = [FACEBOOK_COHORT; OTHER_COHORT]
       /\ map (fun r => Qred (cost_or_zero r)) (overdue out) = [100]
       /\ map (fun r => Qred (cost_or_zero r)) (in_60 out) = [0]
  | Err _ => False end.
Proof. vm_compute. repeat split; reflexivity. Qed.

(** ** Sorting: [sort_by] is a sorted permutation *)

Section SortFacts.
Variable A : Type.
Variable cmp : A -> A -> comparison.

Definition cmp_le (a b : A) : Prop := cmp a b <> Gt.

Lemma insert_by_perm : forall x l, Permutation (insert_by cmp x l) (x :: l).
  Proof.
    intros x l; induction l as [|y l IH]; simpl; [reflexivity|].
    destruct (cmp x y); try reflexivity.
    rewrite IH. apply perm_swap.
  Qed.

Lemma sort_by_perm : forall l, Permutation (sort_by cmp l) l.
  Proof.
    induction l as [|x l IH]; simpl; [reflexivity|].
    rewrite insert_by_perm. now apply perm_skip.
  Qed.

Hypothesis cmp_opp : forall a b, cmp b a = CompOpp (cmp a b).

Lemma cmp_le_flip : forall a b, cmp a b = Gt -> cmp_le b a.
  Proof. intros a b H. unfold cmp_le. rewrite cmp_opp, H. discriminate. Qed.

Lemma insert_by_hd : forall y x l,
    HdRel cmp_le y l -> cmp_le y x -> HdRel cmp_le y (insert_by cmp x l).
  Proof.
    intros y x [|z l] Hl Hyx; simpl.
    - now constructor.
    - inversion Hl; subst.
      destruct (cmp x z); now constructor.
  Qed.

Lemma insert_by_sorted : forall x l,
    Sorted cmp_le l -> Sorted cmp_le (insert_by cmp x l).
  Proof.
    intros x l Hs; induction Hs as [|y l Hs IH Hhd]; simpl.
    - repeat constructor.
    - destruct (cmp x y) eqn:E.
      + constructor; [now constructor | constructor; unfold cmp_le; congruence].
      + constructor; [now constructor | constructor; unfold cmp_le; congruence].
      + constructor; [exact IH|].
        apply insert_by_hd; [exact Hhd|]. now apply cmp_le_flip.
  Qed.

Lemma sort_by_sorted : forall l, Sorted cmp_le (sort_by cmp l).
  Proof.
    induction l as [|x l IH]; simpl; [constructor|].
    now apply insert_by_sorted.
  Qed.
End SortFacts.
Arguments cmp_le {A} cmp a b.

Lemma lex_opp : forall c1 c2 d1 d2,
  d1 = CompOpp c1 -> d2 = CompOpp c2 -> lex d1 d2 = CompOpp (lex c1 c2).
Proof. intros [] [] ? ? -> ->; reflexivity. Qed.

Lemma cell_compare_opp : forall a b, cell_compare b a = CompOpp (cell_compare a b).
Proof.
  intros [] []; simpl;
    first [ reflexivity | apply String.compare_antisym | apply Z.compare_antisym
          | symmetry; apply Qcompare_antisym ].
Qed.

Lemma cmp_working_opp : forall a b, cmp_working b a = CompOpp (cmp_working a b).
Proof.
  intros a b; unfold cmp_working.
  apply lex_opp; [apply Z.compare_antisym | apply cell_compare_opp].
Qed.

Lemma cmp_display_opp : forall a b, cmp_display b a = CompOpp (cmp_display a b).
Proof.
  intros a b; unfold cmp_display.
  apply lex_opp; [apply Z.compare_antisym|].
  apply lex_opp; [apply Z.compare_antisym | apply cell_compare_opp].
Qed.

(** ** Dropping and enrichment *)

Lemma drop_missing_origin : forall as_of es,
  map origin (drop_missing as_of es) = filter keep_row es.
Proof.
  intros as_of es; induction es as [|[c n w k q] es IH]; simpl; [reflexivity|].
  unfold keep_row; simpl.
  destruct n, w; simpl; try rewrite IH; reflexivity.
Qed.

Lemma drop_missing_days : forall as_of es,
  Forall (fun r => n_days r = days_to_renewal (n_working r) as_of) (drop_missing as_of es).
Proof.
  intros as_of es; induction es as [|[c n w k q] es IH]; simpl; [constructor|].
  destruct n, w; simpl; try constructor; auto.
Qed.

Lemma drop_missing_name : forall as_of es,
  Forall (fun r => n_name r <> CNA) (drop_missing as_of es).
Proof.
  intros as_of es; induction es as [|[c n w k q] es IH]; simpl; [constructor|].
  destruct n, w; simpl; try constructor; auto; discriminate.
Qed.

Lemma normalize_partners_ok : forall fb tbl as_of out,
  normalize_partners fb tbl as_of = Ok out ->
  exists es, enriched fb tbl = Ok es /\ out = sort_by cmp_working (drop_missing as_of es).
Proof.
  unfold normalize_partners; intros fb tbl as_of out H.
  destruct (enriched fb tbl) as [es|e]; inversion H; subst; eauto.
Qed.

Lemma normalize_partners_perm : forall fb tbl as_of out es,
  enriched fb tbl = Ok es -> normalize_partners fb tbl as_of = Ok out ->
  Permutation out (drop_missing as_of es).
Proof.
  intros fb tbl as_of out es He H.
  apply normalize_partners_ok in H as [es' [He' ->]].
  rewrite He in He'; inversion He'; subst.
  apply sort_by_perm.
Qed.

Lemma Sorted_impl_on : forall (A : Type) (P : A -> Prop) (R S : A -> A -> Prop) l,
  Forall P l -> (forall a b, P a -> P b -> R a b -> S a b) ->
  Sorted R l -> Sorted S l.
Proof.
  intros A P R S l HP HRS Hs; induction Hs as [|a l Hs IH Hhd]; constructor.
  - apply IH. now inversion HP.
  - inversion Hhd as [|b l' Hab]; subst; constructor.
    inversion HP as [|? ? Pa Pl]; subst. inversion Pl; subst. auto.
Qed.

(** ** Days to renewal *)

Lemma days_to_renewal_shift : forall t as_of,
  days_to_renewal t as_of = (t / DAY + (- as_of) / DAY)%Z.
Proof.
  intros t as_of; unfold days_to_renewal.
  replace (t / DAY * DAY - as_of)%Z with (t / DAY * DAY + - as_of)%Z by lia.
  apply Z.div_add_l. unfold DAY; lia.
Qed.

Lemma cmp_display_le : forall as_of a b,
  n_days a = days_to_renewal (n_working a) as_of ->
  n_days b = days_to_renewal (n_working b) as_of ->
  cmp_le cmp_display a b -> date_order a b.
Proof.
  intros as_of a b Ha Hb H; unfold cmp_le, cmp_display, date_order in *.
  rewrite Ha, Hb, !days_to_renewal_shift in H.
  rewrite (Z.add_comm (n_working a / DAY)), (Z.add_comm (n_working b / DAY)),
    Z.add_compare_mono_l in H.
  destruct (Z.compare_spec (n_working a / DAY) (n_working b / DAY)) as [E|E|E];
    simpl in H.
  - right. split; [exact E | exact H].
  - left. exact E.
  - exfalso. now apply H.
Qed.

Lemma cmp_working_le : forall a b, cmp_le cmp_working a b -> working_order a b.
Proof.
  intros a b H; unfold cmp_le, cmp_working, working_order in *.
  destruct (Z.compare_spec (n_working a) (n_working b)) as [E|E|E]; simpl in H; auto.
  exfalso. now apply H.
Qed.

(** ** C4: the five buckets partition the retained rows *)

Lemma bucket_flags_one : forall r : nrow,
  (Nat.b2n (is_overdue r) + Nat.b2n (in_range 0 30 r) + Nat.b2n (in_range 31 60 r)
   + Nat.b2n (in_range 61 90 r) + Nat.b2n (is_over_90 r) = 1)%nat.
Proof.
  intros r; unfold is_overdue, is_over_90, in_range.
  destruct (Z.ltb_spec (n_days r) 0), (Z.ltb_spec 90 (n_days r)),
    (Z.leb_spec 0 (n_days r)), (Z.leb_spec (n_days r) 30),
    (Z.leb_spec 31 (n_days r)), (Z.leb_spec (n_days r) 60),
    (Z.leb_spec 61 (n_days r)), (Z.leb_spec (n_days r) 90);
    simpl; lia.
Qed.

(** C4. Every integer days-to-renewal value falls in exactly one of the
    buckets overdue (< 0), 0-30, 31-60, 61-90 (inclusive) and 90+ (> 90),
    so for any retained table the five bucket sizes add up to its size. *)
Theorem buckets_partition : forall l : list nrow,
  (forall r, In r l ->
     (Nat.b2n (is_overdue r) + Nat.b2n (in_range 0 30 r) + Nat.b2n (in_range 31 60 r)
      + Nat.b2n (in_range 61 90 r) + Nat.b2n (is_over_90 r) = 1)%nat) /\
  (List.length (overdue l) + List.length (in_30 l) + List.length (in_60 l) + List.length (in_90 l)
   + List.length (over_90 l) = List.length l)%nat.
Proof.
  intros l; split; [intros r _; apply bucket_flags_one|].
  unfold overdue, in_30, in_60, in_90, over_90, renewal_bucket.
  induction l as [|r l IH]; simpl; [reflexivity|].
  pose proof (bucket_flags_one r) as H1.
  destruct (is_overdue r), (in_range 0 30 r), (in_range 31 60 r),
    (in_range 61 90 r), (is_over_90 r); simpl in *; lia.
Qed.

(** ** C8: output order *)

(** C8. The working table is sorted ascending by working renewal date,
    ties broken by partner name (strings compared lexically), and every
    per-bucket table shown and exported by [display_partner_table], built
    from any subset of the retained rows, is sorted ascending by its
    (calendar) renewal date, ties broken by partner name. *)
Theorem output_sorted : forall fb tbl as_of out,
  normalize_partners fb tbl as_of = Ok out ->
  Sorted working_order out /\
  (forall sub, incl sub out -> Sorted date_order (display_rows sub)).
Proof.
  intros fb tbl as_of out H.
  destruct (normalize_partners_ok _ _ _ _ H) as [es [He ->]].
  split.
  - eapply Sorted_impl_on with (P := fun _ => True).
    + apply Forall_forall; auto.
    + intros a b _ _; apply cmp_working_le.
    + apply sort_by_sorted, cmp_working_opp.
  - intros sub Hsub.
    eapply Sorted_impl_on
      with (P := fun r => n_days r = days_to_renewal (n_working r) as_of).
    + apply Forall_forall; intros r Hr.
      apply (Permutation_in _ (sort_by_perm _ cmp_display sub)) in Hr.
      apply Hsub in Hr.
      apply (Permutation_in _ (sort_by_perm _ cmp_working _)) in Hr.
      exact (proj1 (Forall_forall _ _) (drop_missing_days as_of es) r Hr).
    + intros a b Ha Hb; apply (cmp_display_le as_of); assumption.
    + apply sort_by_sorted, cmp_display_opp.
Qed.

Lemma output_sorted_witness :
  exists out, normalize_partners mdy_fallback tbl_spec 0 = Ok out /\
  Sorted working_order out /\
  (forall sub, incl sub out -> Sorted date_order (display_rows sub)).
Proof.
  eexists; split; [vm_compute; reflexivity|].
  apply (output_sorted mdy_fallback tbl_spec 0). vm_compute. reflexivity.
Defined.

(** ** Column lengths and the projections of [build_erows] *)

Lemma column_length : forall cols rs name, List.length (column cols rs name) = List.length rs.
Proof. intros; unfold column; apply length_map. Qed.

Lemma fillna_length : forall a b, List.length (fillna a b) = List.length a.
Proof.
  induction a as [|x a IH]; intros b; simpl; [reflexivity|].
  destruct b; simpl; now rewrite IH.
Qed.

Lemma fillna_nth : forall a b i x,
  nth_error a i = Some x ->
  nth_error (fillna a b) i =
  Some (match x with Some _ => x | None => nth i b None end).
Proof.
  induction a as [|y a IH]; intros b i x H; [destruct i; discriminate|].
  destruct i as [|i]; simpl in H |- *.
  - inversion H; subst. destruct b; destruct x; reflexivity.
  - destruct b as [|z b]; simpl; rewrite (IH _ _ _ H); [destruct x, i|]; reflexivity.
Qed.

Lemma cohort_col_length : forall cols rs, List.length (cohort_col cols rs) = List.length rs.
Proof.
  intros; unfold cohort_col; destruct (has_column cols "CPL");
    rewrite ?length_map; [apply column_length | reflexivity].
Qed.

Lemma cost_col_length : forall cols rs, List.length (cost_col cols rs) = List.length rs.
Proof.
  intros; unfold cost_col; destruct (has_column cols COST_COLUMN);
    rewrite ?length_map; [apply column_length | reflexivity].
Qed.

Lemma build_erows_proj : forall rs names ws cs ks,
  List.length names = List.length rs -> List.length ws = List.length rs ->
  List.length cs = List.length rs -> List.length ks = List.length rs ->
  let es := build_erows rs names ws cs ks in
  map e_cells es = rs /\ map e_name es = names /\ map e_working es = ws /\
  map e_cohort es = cs /\ map e_cost es = ks.
Proof.
  induction rs as [|r rs IH]; intros names ws cs ks Hn Hw Hc Hk; simpl.
  - destruct names, ws, cs, ks; try discriminate; repeat split.
  - destruct names as [|n names], ws as [|w ws], cs as [|c cs], ks as [|k ks];
      try discriminate; simpl in *.
    destruct (IH names ws cs ks) as (H1 & H2 & H3 & H4 & H5); try lia.
    simpl; rewrite H1, H2, H3, H4, H5; repeat split.
Qed.

Lemma enrich_proj : forall fb cols rc rs,
  let es := enrich fb cols rc rs in
  map e_cells es = rs /\ map e_name es = column cols rs PARTNER_COLUMN /\
  map e_working es = working_col fb (column cols rs rc) /\
  map e_cohort es = cohort_col cols rs /\ map e_cost es = cost_col cols rs.
Proof.
  intros; unfold enrich.
  apply build_erows_proj.
  - apply column_length.
  - unfold working_col; rewrite fillna_length, length_map; apply column_length.
  - apply cohort_col_length.
  - apply cost_col_length.
Qed.

Lemma enriched_ok : forall fb tbl es,
  enriched fb tbl = Ok es ->
  exists cols' rc, prepare (columns tbl) = Ok (cols', rc) /\
                   es = enrich fb cols' rc (rows tbl).
Proof.
  unfold enriched; intros fb tbl es H.
  destruct (prepare (columns tbl)) as [[cols' rc]|e]; [|discriminate].
  destruct (duplicated_label cols' rc); inversion H; subst; eauto.
Qed.

(** ** C1: which rows are retained *)

(** C1 (code bug). A partner name that is an empty or whitespace-only
    string, as a live sheet gives for a blank cell, is not missing for
    [dropna]: such rows are kept in the working table. *)
Lemma blank_name_retained :
  match normalize_partners mdy_fallback tbl_blank 0 with
  | Ok out => Exists (fun r => exists s, n_name r = CStr s /\ strip s = "") out
  | Err _ => False
  end.
Proof. vm_compute. apply Exists_cons_hd. eexists; split; reflexivity. Qed.

(** The working table is, up to order, exactly the enriched rows whose
    partner-name cell is present (not NaN/None) and whose working renewal
    date was parsed; every other row is dropped. The partner name is the
    cell of the resolved partner column; blank strings are not missing. *)
Theorem retained_rows : forall fb tbl as_of es out,
  enriched fb tbl = Ok es -> normalize_partners fb tbl as_of = Ok out ->
  (exists cols' rc, prepare (columns tbl) = Ok (cols', rc) /\
     map e_name es = column cols' (rows tbl) PARTNER_COLUMN) /\
  Permutation (map origin out) (filter keep_row es) /\
  Forall (fun r => n_name r <> CNA) out.
Proof.
  intros fb tbl as_of es out He H.
  pose proof (normalize_partners_perm _ _ _ _ _ He H) as Hp.
  split; [|split].
  - destruct (enriched_ok _ _ _ He) as (cols' & rc & Hpr & ->).
    exists cols', rc; split; [exact Hpr|].
    apply (enrich_proj fb cols' rc (rows tbl)).
  - rewrite <- (drop_missing_origin as_of). now apply Permutation_map.
  - apply (Permutation_Forall (Permutation_sym Hp)), drop_missing_name.
Qed.

Lemma retained_rows_witness :
  exists es out, enriched mdy_fallback tbl_blank = Ok es /\
  normalize_partners mdy_fallback tbl_blank 0 = Ok out /\
  Permutation (map origin out) (filter keep_row es).
Proof.
  do 2 eexists; split; [vm_compute; reflexivity|]; split; [vm_compute; reflexivity|].
  refine (proj1 (proj2 (retained_rows mdy_fallback tbl_blank 0 _ _ _ _)));
    vm_compute; reflexivity.
Defined.

(** ** Retained rows come from enriched rows *)

Lemma out_origin_in : forall fb tbl as_of es out r,
  enriched fb tbl = Ok es -> normalize_partners fb tbl as_of = Ok out ->
  In r out -> In (origin r) es.
Proof.
  intros fb tbl as_of es out r He H Hr.
  pose proof (normalize_partners_perm _ _ _ _ _ He H) as Hp.
  assert (Hin : In (origin r) (filter keep_row es)).
  { rewrite <- (drop_missing_origin as_of). apply in_map.
    exact (Permutation_in _ Hp Hr). }
  now apply filter_In in Hin as [Hin _].
Qed.

Lemma has_column_rename : forall cols old new name,
  name <> new -> has_column cols name = false ->
  has_column (rename_col cols old new) name = false.
Proof.
  unfold has_column, rename_col; intros cols old new name Hn.
  induction cols as [|c cols IH]; simpl; [reflexivity|].
  intros H; apply orb_false_iff in H as [H1 H2].
  apply orb_false_iff; split; [|now apply IH].
  destruct (String.eqb c old); [|exact H1].
  now apply String.eqb_neq.
Qed.

Lemma prepare_has_column : forall cols cols' rc name,
  name <> PARTNER_COLUMN -> prepare cols = Ok (cols', rc) ->
  has_column cols name = false -> has_column cols' name = false.
Proof.
  unfold prepare; intros cols cols' rc name Hn H Hc.
  destruct (resolve_column cols PARTNER_COLUMN []) as [pc|]; [|discriminate].
  destruct (String.eqb pc PARTNER_COLUMN);
    destruct (resolve_renewal_column _); inversion H; subst; auto.
  now apply has_column_rename.
Qed.

(** ** C2: cohort classification *)

Lemma cohort_of_value_spec : forall v,
  (cohort_of_value v = FACEBOOK_COHORT \/ cohort_of_value v = OTHER_COHORT) /\
  (cohort_of_value v = FACEBOOK_COHORT <->
   exists q, v = Some q /\ (q == 15 \/ q == 18)).
Proof.
  intros [q|]; unfold cohort_of_value.
  - destruct (Qeq_bool q 15) eqn:E15, (Qeq_bool q 18) eqn:E18; simpl;
      (split; [auto|]);
      rewrite ?Qeq_bool_iff in E15; rewrite ?Qeq_bool_iff in E18;
      rewrite <- ?Qeq_bool_iff, ?E15, ?E18;
      split; try (intros; eauto; fail);
      try (intros [q' [Hq [H|H]]]; inversion Hq; subst;
           apply Qeq_bool_iff in H; congruence);
      try discriminate.
  - split; [auto|]. split; [discriminate|]. intros [q [Hq _]]; discriminate.
Qed.

Lemma cohort_col_absent : forall cols rs,
  has_column cols "CPL" = false -> cohort_col cols rs = map (fun _ => OTHER_COHORT) rs.
Proof. intros cols rs H; unfold cohort_col; now rewrite H. Qed.

(** C2. Every row's cohort is one of the two labels, and it is
    "Facebook Group cohort" exactly when the table has a [CPL] column and
    the row's CPL cell coerces to a number equal to 15 or 18 (no
    tolerance); invalid or missing values, and an absent CPL column, give
    "All Other Partners". The enriched rows carry this column. *)
Theorem cohort_rule :
  (forall cols rs,
     Forall2 (fun r c =>
       (c = FACEBOOK_COHORT \/ c = OTHER_COHORT) /\
       (c = FACEBOOK_COHORT <->
        has_column cols "CPL" = true /\
        exists v, to_numeric (cell_at cols "CPL" r) = Some v /\ (v == 15 \/ v == 18)))
       rs (cohort_col cols rs)) /\
  (forall cols rs, has_column cols "CPL" = false ->
     Forall (fun c => c = OTHER_COHORT) (cohort_col cols rs)) /\
  (forall fb tbl es, enriched fb tbl = Ok es ->
     exists cols' rc, prepare (columns tbl) = Ok (cols', rc) /\
       map e_cohort es = cohort_col cols' (rows tbl)).
Proof.
  split; [|split].
  - intros cols rs; unfold cohort_col.
    destruct (has_column cols "CPL") eqn:Hc.
    + unfold column; rewrite !map_map.
      induction rs as [|r rs IH]; simpl; constructor; [|exact IH].
      destruct (cohort_of_value_spec (to_numeric (cell_at cols "CPL" r))) as [H1 H2].
      split; [exact H1|]. rewrite H2. split; [intros; split; auto | intros [_ H]; exact H].
    + induction rs as [|r rs IH]; simpl; constructor; [|exact IH].
      split; [now right|]. split; [discriminate|]. intros [H _]; discriminate.
  - intros cols rs H; rewrite cohort_col_absent by exact H.
    apply Forall_forall; intros c Hc; apply in_map_iff in Hc as [? [<- _]]; reflexivity.
  - intros fb tbl es He.
    destruct (enriched_ok _ _ _ He) as (cols' & rc & Hpr & ->).
    exists cols', rc; split; [exact Hpr|].
    apply (enrich_proj fb cols' rc (rows tbl)).
Qed.

(** ** C9: optional columns are found by exact header only *)

Lemma cost_col_absent : forall cols rs,
  has_column cols COST_COLUMN = false -> cost_col cols rs = map (fun _ => None) rs.
Proof. intros cols rs H; unfold cost_col; now rewrite H. Qed.

(** C9. [CPL] and [Monthly subscription cost] are recognised only by exact,
    case-sensitive header equality: headers such as "cpl" or " CPL", which
    column normalisation would equate with "CPL", are not recognised; when
    the exact header is absent every row of the working table is
    "All Other Partners", and when the exact cost header is absent every
    cleaned cost is "no value". *)
Theorem optional_columns_exact :
  has_column ["cpl"; " CPL"; "Cpl "] "CPL" = false /\
  normalize_colname " CPL" = normalize_colname "CPL" /\
  cohort_col ["cpl"] [[CNum "15"]] = [OTHER_COHORT] /\
  has_column ["monthly subscription cost"; "Monthly Subscription Cost"] COST_COLUMN = false /\
  (forall fb tbl as_of out, has_column (columns tbl) "CPL" = false ->
     normalize_partners fb tbl as_of = Ok out ->
     Forall (fun r => n_cohort r = OTHER_COHORT) out) /\
  (forall fb tbl as_of out, has_column (columns tbl) COST_COLUMN = false ->
     normalize_partners fb tbl as_of = Ok out ->
     Forall (fun r => n_cost r = None) out).
Proof.
  split; [reflexivity|]. split; [reflexivity|]. split; [reflexivity|].
  split; [reflexivity|]. split.
  - intros fb tbl as_of out Hc H.
    destruct (normalize_partners_ok _ _ _ _ H) as [es [He _]].
    destruct (enriched_ok _ _ _ He) as (cols' & rc & Hpr & Hes).
    assert (Hc' : has_column cols' "CPL" = false)
      by (eapply prepare_has_column; [discriminate | exact Hpr | exact Hc]).
    destruct (enrich_proj fb cols' rc (rows tbl)) as (_ & _ & _ & H4 & _).
    rewrite <- Hes, cohort_col_absent in H4 by exact Hc'.
    apply Forall_forall; intros r Hr.
    pose proof (out_origin_in _ _ _ _ _ _ He H Hr) as Ho.
    apply (in_map e_cohort) in Ho. rewrite H4 in Ho.
    apply in_map_iff in Ho as [? [Ho _]]. simpl in Ho. congruence.
  - intros fb tbl as_of out Hc H.
    destruct (normalize_partners_ok _ _ _ _ H) as [es [He _]].
    destruct (enriched_ok _ _ _ He) as (cols' & rc & Hpr & Hes).
    assert (Hc' : has_column cols' COST_COLUMN = false)
      by (eapply prepare_has_column; [discriminate | exact Hpr | exact Hc]).
    destruct (enrich_proj fb cols' rc (rows tbl)) as (_ & _ & _ & _ & H5).
    rewrite <- Hes, cost_col_absent in H5 by exact Hc'.
    apply Forall_forall; intros r Hr.
    pose proof (out_origin_in _ _ _ _ _ _ He H Hr) as Ho.
    apply (in_map e_cost) in Ho. rewrite H5 in Ho.
    apply in_map_iff in Ho as [? [Ho _]]. simpl in Ho. congruence.
Qed.

(** ** C6: cleaning the monthly cost *)

Lemma clean_cost_filter : forall s,
  list_ascii_of_string (clean_cost s) = filter keep_cost_char (list_ascii_of_string s).
Proof.
  induction s as [|c s IH]; simpl; [reflexivity|].
  destruct (keep_cost_char c); simpl; now rewrite IH.
Qed.

(** C6. Each cleaned cost is [pd.to_numeric] of the text with every
    character other than a digit, "." or "-" deleted, "no value" when that
    text is empty or not a number; with no cost column every cleaned value
    is "no value"; "£1,250.00" cleans to 1250.00, "" and "N/A" to no value;
    and whether a row is retained does not depend on its cost. *)
Theorem cost_cleaning :
  (forall s, list_ascii_of_string (clean_cost s) =
             filter keep_cost_char (list_ascii_of_string s)) /\
  (forall cols rs,
     Forall2 (fun r k =>
       k = if has_column cols COST_COLUMN
           then to_numeric (CStr (clean_cost (astype_str (cell_at cols COST_COLUMN r))))
           else None) rs (cost_col cols rs)) /\
  (exists q, to_numeric (CStr (clean_cost (POUND ++ "1,250.00"))) = Some q /\ q == 1250) /\
  to_numeric (CStr (clean_cost "")) = None /\
  to_numeric (CStr (clean_cost "N/A")) = None /\
  (forall e k, keep_row (mk_erow (e_cells e) (e_name e) (e_working e) (e_cohort e) k)
               = keep_row e).
Proof.
  split; [exact clean_cost_filter|]. split.
  - intros cols rs; unfold cost_col.
    destruct (has_column cols COST_COLUMN).
    + unfold column; rewrite map_map.
      induction rs; simpl; constructor; auto.
    + induction rs; simpl; constructor; auto.
  - split; [eexists; split; [reflexivity | reflexivity]|].
    split; [reflexivity|]. split; [reflexivity|].
    intros [] k; reflexivity.
Qed.

(** ** C7: revenue and its display *)


Lemma cost_or_zero_rows : forall l,
  Forall2 (fun r q => n_cost r = Some q \/ (n_cost r = None /\ q = 0)) l (map cost_or_zero l).
Proof.
  induction l as [|r l IH]; simpl; constructor; [|exact IH].
  unfold cost_or_zero; destruct (n_cost r); auto.
Qed.

Lemma round_half_even_nearest : forall q,
  Qabs (q - inject_Z (round_half_even q)) <= 1 # 2.
Proof.
  intros q; unfold round_half_even.
  pose proof (Qfloor_le q) as Hle. pose proof (Qlt_floor q) as Hlt.
  set (f := Qfloor q) in *; clearbody f.
  rewrite inject_Z_plus in Hlt.
  apply Qabs_Qle_condition.
  change (inject_Z 1) with 1 in *.
  destruct (Qcompare_spec (q - inject_Z f) (1 # 2)) as [E|E|E].
  - destruct (Z.even f); rewrite ?inject_Z_plus; change (inject_Z 1) with 1;
      generalize dependent (inject_Z f); intros; split; lra.
  - generalize dependent (inject_Z f); intros; split; lra.
  - rewrite inject_Z_plus; change (inject_Z 1) with 1;
      generalize dependent (inject_Z f); intros; split; lra.
Qed.

Lemma strip_commas_app : forall a b, strip_commas (a ++ b) = strip_commas a ++ strip_commas b.
Proof.
  induction a as [|c a IH]; intros b; simpl; [reflexivity|].
  destruct (c =? ",")%char; simpl; now rewrite IH.
Qed.

Lemma strip_commas_list : forall l,
  strip_commas (string_of_list_ascii l) = string_of_list_ascii (filter not_comma l).
Proof.
  induction l as [|c l IH]; simpl; [reflexivity|].
  destruct (c =? ",")%char eqn:E; unfold not_comma at 1; rewrite E; simpl;
    now rewrite IH.
Qed.

Lemma group_rev_filter : forall n l, (List.length l <= n)%nat ->
  filter not_comma (group_rev l) = filter not_comma l.
Proof.
  induction n as [|n IH]; intros l Hl.
  - destruct l; [reflexivity | simpl in Hl; lia].
  - destruct l as [|a [|b [|c [|d rest]]]]; try reflexivity.
    change (group_rev (a :: b :: c :: d :: rest))
      with ([a; b; c; ","%char] ++ group_rev (d :: rest))%list.
    change (a :: b :: c :: d :: rest) with ([a; b; c] ++ d :: rest)%list.
    rewrite !filter_app, (IH (d :: rest)) by (simpl in *; lia).
    reflexivity.
Qed.

Lemma filter_rev_comm : forall (A : Type) (f : A -> bool) l,
  filter f (rev l) = rev (filter f l).
Proof.
  intros A f l; induction l as [|x l IH]; simpl; [reflexivity|].
  rewrite filter_app, IH; simpl. destruct (f x); simpl; [reflexivity | apply app_nil_r].
Qed.

Lemma digit_char_not_comma : forall n, not_comma (digit_char (n mod 10)) = true.
Proof.
  intros n; unfold not_comma, digit_char.
  pose proof (Z.mod_pos_bound n 10 ltac:(lia)) as B.
  destruct ((ascii_of_nat (Z.to_nat (n mod 10) + 48) =? ",")%char) eqn:E; [|reflexivity].
  apply Ascii.eqb_eq, (f_equal nat_of_ascii) in E.
  rewrite nat_ascii_embedding in E by lia.
  change (nat_of_ascii ","%char) with 44%nat in E. lia.
Qed.

Lemma digits_rev_no_comma : forall fuel n, filter not_comma (digits_rev fuel n) = digits_rev fuel n.
Proof.
  induction fuel as [|fuel IH]; intros n; simpl; [reflexivity|].
  rewrite digit_char_not_comma. f_equal.
  destruct (n <? 10)%Z; [reflexivity | apply IH].
Qed.

Lemma group_thousands_digits : forall z,
  strip_commas (group_thousands z) = (if (z <? 0)%Z then "-" else "") ++ show_nat (Z.abs z).
Proof.
  intros z; unfold group_thousands, show_nat.
  rewrite strip_commas_app, strip_commas_list, filter_rev_comm.
  rewrite (group_rev_filter _ _ (le_n _)), digits_rev_no_comma.
  destruct (z <? 0)%Z; reflexivity.
Qed.

(** C7. The revenue of a bucketed subset is the float sum of one value
    per row: its cleaned monthly cost, or zero when it has "no value"; it is
    displayed as the pound sign followed by that sum rounded to a nearest
    whole unit (ties to even, as Python's [round]) written with thousands
    separators. [revenue] and [format_currency] only read the rows: the
    stored cleaned values are not changed. This holds whatever the order
    and rounding of numpy's float additions. *)
Theorem revenue_display : forall (float_sum : list Q -> Q) (l : list nrow),
  revenue float_sum l = float_sum (map cost_or_zero l) /\
  Forall2 (fun r q => n_cost r = Some q \/ (n_cost r = None /\ q = 0)) l (map cost_or_zero l) /\
  format_currency (revenue float_sum l) =
    POUND ++ group_thousands (round_half_even (revenue float_sum l)) /\
  Qabs (revenue float_sum l - inject_Z (round_half_even (revenue float_sum l))) <= 1 # 2 /\
  strip_commas (group_thousands (round_half_even (revenue float_sum l))) =
    (if (round_half_even (revenue float_sum l) <? 0)%Z then "-" else "")
    ++ show_nat (Z.abs (round_half_even (revenue float_sum l))).
Proof.
  intros float_sum l; split; [reflexivity|].
  split; [apply cost_or_zero_rows|].
  split; [reflexivity|].
  split; [apply round_half_even_nearest | apply group_thousands_digits].
Qed.

Example format_currency_ex :
  format_currency (12345674 # 10) = POUND ++ "1,234,567" /\
  format_currency (25 # 10) = POUND ++ "2" /\
  format_currency 0 = POUND ++ "0".
Proof. repeat split; reflexivity. Qed.

(** ** The header dictionary *)

Lemma normalized_to_actual_rev : forall cols,
  normalized_to_actual cols = rev (map (fun c => (normalize_colname c, c)) cols).
Proof.
  intros cols; unfold normalized_to_actual.
  assert (G : forall d, fold_left (fun d c => (normalize_colname c, c) :: d) cols d =
                        (rev (map (fun c => (normalize_colname c, c)) cols) ++ d)%list).
  { induction cols as [|c cols IH]; intros d; simpl; [reflexivity|].
    rewrite IH, <- app_assoc. reflexivity. }
  rewrite G. apply app_nil_r.
Qed.

Lemma dict_get_map_some : forall l k h,
  dict_get (map (fun c => (normalize_colname c, c)) l) k = Some h ->
  In h l /\ normalize_colname h = k.
Proof.
  induction l as [|c l IH]; intros k h H; simpl in H; [discriminate|].
  destruct (String.eqb_spec k (normalize_colname c)) as [E|E].
  - inversion H; subst. split; [now left | reflexivity].
  - destruct (IH _ _ H) as [H1 H2]. split; [now right | exact H2].
Qed.

Lemma dict_get_map_none : forall l k,
  dict_get (map (fun c => (normalize_colname c, c)) l) k = None <->
  forall c, In c l -> normalize_colname c <> k.
Proof.
  induction l as [|c l IH]; intros k; simpl; [split; [intros _ c []|reflexivity]|].
  destruct (String.eqb_spec k (normalize_colname c)) as [E|E].
  - split; [discriminate|]. intros H. exfalso. exact (H c (or_introl eq_refl) (eq_sym E)).
  - rewrite IH. split.
    + intros H c' [<-|Hc]; [congruence | now apply H].
    + intros H c' Hc; apply H; now right.
Qed.

Lemma dict_some : forall cols k h,
  dict_get (normalized_to_actual cols) k = Some h -> In h cols /\ normalize_colname h = k.
Proof.
  intros cols k h H; rewrite normalized_to_actual_rev, <- map_rev in H.
  apply dict_get_map_some in H as [H1 H2]. split; [now rewrite <- in_rev in H1 | exact H2].
Qed.

Lemma dict_none : forall cols k,
  dict_get (normalized_to_actual cols) k = None <->
  forall c, In c cols -> normalize_colname c <> k.
Proof.
  intros cols k; rewrite normalized_to_actual_rev, <- map_rev, dict_get_map_none.
  split; intros H c Hc; apply H; [now rewrite <- in_rev | now rewrite <- in_rev in Hc].
Qed.

Lemma truthy_iff : forall s, truthy s = true <-> s <> "".
Proof.
  intros s; unfold truthy. rewrite negb_true_iff. apply String.eqb_neq.
Qed.

Lemma normalize_colname_empty : normalize_colname "" = "".
Proof. reflexivity. Qed.

Lemma resolve_loop_truthy : forall d ws m, resolve_loop d ws = Some m -> truthy m = true.
Proof.
  intros d ws m; induction ws as [|w ws IH]; simpl; [discriminate|].
  destruct (dict_get d (normalize_colname w)) as [m'|]; [|exact IH].
  destruct (truthy m') eqn:T; [|exact IH]. intros H; inversion H; now subst.
Qed.

Lemma resolve_loop_in : forall cols ws m,
  resolve_loop (normalized_to_actual cols) ws = Some m ->
  In m cols /\ exists w, In w ws /\ normalize_colname m = normalize_colname w.
Proof.
  intros cols ws m; induction ws as [|w ws IH]; simpl; [discriminate|].
  destruct (dict_get _ (normalize_colname w)) as [m'|] eqn:D.
  - destruct (truthy m'); intros H.
    + inversion H; subst. apply dict_some in D as [D1 D2]. eauto.
    + destruct (IH H) as [H1 [w' [H2 H3]]]. eauto.
  - intros H; destruct (IH H) as [H1 [w' [H2 H3]]]. eauto.
Qed.

Lemma resolve_loop_spec : forall cols ws,
  Forall (fun w => normalize_colname w <> "") ws ->
  (resolve_loop (normalized_to_actual cols) ws = None <->
   forall w, In w ws -> forall c, In c cols -> normalize_colname c <> normalize_colname w) /\
  (forall h, resolve_loop (normalized_to_actual cols) ws = Some h ->
   In h cols /\ exists pre w post, ws = (pre ++ w :: post)%list /\
     normalize_colname h = normalize_colname w /\
     forall w', In w' pre -> forall c, In c cols -> normalize_colname c <> normalize_colname w').
Proof.
  intros cols ws Hne; induction Hne as [|w ws Hw Hne IH]; simpl.
  - split; [split; [intros _ w []|reflexivity] | discriminate].
  - destruct IH as [IH1 IH2].
    destruct (dict_get _ (normalize_colname w)) as [m|] eqn:D.
    + pose proof (dict_some _ _ _ D) as [Dm Dn].
      assert (Tm : truthy m = true).
      { apply truthy_iff. intros ->. apply Hw. now rewrite <- Dn. }
      rewrite Tm. split.
      * split; [discriminate|]. intros H. exfalso.
        exact (H w (or_introl eq_refl) m Dm Dn).
      * intros h Hh; inversion Hh; subst. split; [exact Dm|].
        exists [], w, ws. repeat split; [exact Dn | intros ? []].
    + pose proof (proj1 (dict_none _ _) D) as Dn. split.
      * rewrite IH1. split.
        -- intros H w' [<-|Hw'] c Hc; [now apply Dn | now apply H].
        -- intros H w' Hw'; apply H; now right.
      * intros h Hh. destruct (IH2 h Hh) as [Hin [pre [w' [post [E [N P]]]]]].
        split; [exact Hin|]. exists (w :: pre), w', post.
        rewrite E; repeat split; [exact N|].
        intros w'' [<-|Hp] c Hc; [now apply Dn | now apply (P w'')].
Qed.

(** ** C5: column resolution *)

Lemma resolve_renewal_column_eq : forall cols,
  resolve_renewal_column cols =
  match resolve_column cols RENEWAL_COLUMN renewal_aliases with
  | Some r => Some r
  | None => if (13 <=? List.length cols)%nat then nth_error cols 12 else None
  end.
Proof.
  intros cols; unfold resolve_renewal_column.
  destruct (resolve_column cols RENEWAL_COLUMN renewal_aliases) as [r|] eqn:R; [|reflexivity].
  unfold resolve_column in R. now rewrite (resolve_loop_truthy _ _ _ R).
Qed.

(** C5. [resolve_column] tries the target and then each alias in order,
    comparing headers after trimming, collapsing inner whitespace and
    lower-casing, and returns "not found" exactly when none of them matches
    a header (for names that do not normalise to the empty string, which
    holds for every name the program resolves); the renewal column falls
    back to the 13th column (index 12) when name resolution fails and the
    table has at least 13 columns; the partner column has no positional
    fallback; and the required-column check fails exactly when the partner
    name does not resolve or both renewal steps fail. *)
Theorem column_resolution :
  (forall cols target aliases,
     Forall (fun w => normalize_colname w <> "") (target :: aliases) ->
     (resolve_column cols target aliases = None <->
      forall w, In w (target :: aliases) -> forall c, In c cols ->
        normalize_colname c <> normalize_colname w) /\
     (forall h, resolve_column cols target aliases = Some h ->
      In h cols /\ exists pre w post, (target :: aliases) = (pre ++ w :: post)%list /\
        normalize_colname h = normalize_colname w /\
        forall w', In w' pre -> forall c, In c cols ->
          normalize_colname c <> normalize_colname w')) /\
  Forall (fun w => normalize_colname w <> "") (RENEWAL_COLUMN :: renewal_aliases) /\
  Forall (fun w => normalize_colname w <> "") [PARTNER_COLUMN] /\
  (forall cols, resolve_renewal_column cols =
     match resolve_column cols RENEWAL_COLUMN renewal_aliases with
     | Some r => Some r
     | None => if (13 <=? List.length cols)%nat then nth_error cols 12 else None
     end) /\
  (forall cols, prepare cols = Err MissingPartnerColumn <->
     resolve_column cols PARTNER_COLUMN [] = None) /\
  (forall cols, missing_columns cols <> [] <->
     resolve_column cols PARTNER_COLUMN [] = None \/
     (resolve_column cols RENEWAL_COLUMN renewal_aliases = None /\
      (List.length cols < 13)%nat)).
Proof.
  split; [intros cols target aliases Hne; apply (resolve_loop_spec cols _ Hne)|].
  split; [repeat constructor; discriminate|].
  split; [repeat constructor; discriminate|].
  split; [exact resolve_renewal_column_eq|].
  split.
  - intros cols; unfold prepare.
    destruct (resolve_column cols PARTNER_COLUMN []) as [pc|]; [|split; reflexivity].
    split; [|discriminate].
    destruct (String.eqb pc PARTNER_COLUMN), (resolve_renewal_column _); discriminate.
  - intros cols; unfold missing_columns; rewrite resolve_renewal_column_eq.
    destruct (resolve_column cols PARTNER_COLUMN []) as [pc|];
    destruct (resolve_column cols RENEWAL_COLUMN renewal_aliases) as [r|].
    + split; [intros H; exfalso; now apply H | intros [H|[H _]]; discriminate].
    + destruct (Nat.leb_spec 13 (List.length cols)) as [L|L].
      * destruct (nth_error cols 12) eqn:N.
        -- split; [intros H; exfalso; now apply H|].
           intros [H|[_ H]]; [discriminate | lia].
        -- apply nth_error_None in N. lia.
      * split; [intros _; right; split; [reflexivity | exact L]|].
        intros _; discriminate.
    + split; [intros _; now left | intros _; discriminate].
    + split; [intros _; now left | intros _; discriminate].
Qed.

Example partner_no_positional_fallback :
  prepare ["a"; "b"; "c"; "d"; "e"; "f"; "g"; "h"; "i"; "j"; "k"; "l"; "Renewal"]
    = Err MissingPartnerColumn /\
  resolve_renewal_column ["a"; "b"; "c"; "d"; "e"; "f"; "g"; "h"; "i"; "j"; "k"; "l"; "m"]
    = Some "m".
Proof. split; reflexivity. Qed.

(** ** C10: empty and whitespace-only headers *)

Lemma is_space_lower_char : forall c, is_space (lower_char c) = is_space c.
Proof.
  intros c; unfold lower_char.
  destruct ((65 <=? nat_of_ascii c) && (nat_of_ascii c <=? 90))%nat eqn:R; [|reflexivity].
  apply andb_true_iff in R as [R1 R2]. apply Nat.leb_le in R1, R2.
  unfold is_space. rewrite nat_ascii_embedding by lia.
  destruct (Nat.leb_spec 9 (nat_of_ascii c + 32)), (Nat.leb_spec (nat_of_ascii c + 32) 13),
    (Nat.leb_spec 28 (nat_of_ascii c + 32)), (Nat.leb_spec (nat_of_ascii c + 32) 32),
    (Nat.leb_spec 9 (nat_of_ascii c)), (Nat.leb_spec (nat_of_ascii c) 13),
    (Nat.leb_spec 28 (nat_of_ascii c)), (Nat.leb_spec (nat_of_ascii c) 32);
    simpl; lia.
Qed.

Lemma lstrip_lower_empty : forall s, lstrip (lower s) = "" -> lstrip s = "".
Proof.
  induction s as [|c s IH]; simpl; [auto|].
  rewrite is_space_lower_char. destruct (is_space c); [exact IH | discriminate].
Qed.

Lemma append_nonempty : forall a c, a ++ String c "" <> "".
Proof. intros [] c; discriminate. Qed.

Lemma split_aux_nil : forall t cur, split_aux t cur = [] -> cur = "" /\ lstrip t = "".
Proof.
  induction t as [|c t IH]; intros cur; simpl.
  - destruct (String.eqb_spec cur ""); [auto | discriminate].
  - destruct (is_space c).
    + destruct (String.eqb_spec cur ""); [|discriminate].
      intros H; split; [assumption|]. exact (proj2 (IH _ H)).
    + intros H. destruct (IH _ H) as [H1 _]. exfalso. exact (append_nonempty _ _ H1).
Qed.

Lemma split_aux_words : forall t cur, Forall (fun w => w <> "") (split_aux t cur).
Proof.
  induction t as [|c t IH]; intros cur; simpl.
  - destruct (String.eqb_spec cur ""); constructor; auto.
  - destruct (is_space c); [|apply IH].
    destruct (String.eqb_spec cur ""); [apply IH | constructor; auto].
Qed.

Lemma concat_empty : forall l, Forall (fun w => w <> "") l ->
  String.concat " " l = "" -> l = [].
Proof.
  intros [|w [|w' l]] Hl H; [reflexivity | |].
  - inversion Hl; subst. simpl in H. contradiction.
  - simpl in H. destruct w; discriminate.
Qed.

Lemma strip_of_blank : forall s, lstrip s = "" -> strip s = "".
Proof. intros s H; unfold strip; rewrite H; reflexivity. Qed.

(** A header that [str.strip] leaves unchanged normalises to the empty
    string only if it is the empty string. *)
Lemma normalize_stripped_empty : forall h,
  strip h = h -> normalize_colname h = "" -> h = "".
Proof.
  intros h Hs Hn; unfold normalize_colname in Hn.
  apply concat_empty in Hn; [|apply split_aux_words].
  apply split_aux_nil in Hn as [_ Hn].
  apply lstrip_lower_empty in Hn. rewrite Hs in Hn.
  rewrite <- Hs. now apply strip_of_blank.
Qed.

Lemma dict_get_app_none : forall l1 l2 k,
  dict_get l1 k = None -> dict_get (l1 ++ l2) k = dict_get l2 k.
Proof.
  induction l1 as [|[k' v] l1 IH]; intros l2 k H; simpl in *; [reflexivity|].
  destruct (String.eqb k k'); [discriminate | now apply IH].
Qed.

(** The dictionary maps a normalised name to the last header with that
    normalised form. *)
Lemma dict_last : forall pre h post k,
  normalize_colname h = k -> (forall c, In c post -> normalize_colname c <> k) ->
  dict_get (normalized_to_actual (pre ++ h :: post)) k = Some h.
Proof.
  intros pre h post k Hh Hp.
  rewrite normalized_to_actual_rev, map_app, rev_app_distr. cbn [map rev].
  rewrite <- !app_assoc, dict_get_app_none.
  - simpl. rewrite Hh, String.eqb_refl. reflexivity.
  - rewrite <- map_rev. apply dict_get_map_none.
    intros c Hc; apply Hp; now apply in_rev.
Qed.

(** C10 (counterexample). A whitespace-only header that is not the empty
    string is truthy: with a target normalising to the empty string,
    [resolve_column] returns it although its normalised form is empty. *)
Lemma whitespace_header_returned :
  resolve_column ["  "] "" [] = Some "  " /\ normalize_colname "  " = "".
Proof. split; reflexivity. Qed.

(** A later header "" hides an earlier whitespace-only one. *)
Example empty_header_hides_blank :
  resolve_column ["  "; ""] "" [] = None.
Proof. reflexivity. Qed.

(** C10 (amended). [resolve_column] never returns the empty header "":
    a match on it is discarded by the truthiness check. A header made only
    of whitespace can be returned: a target that normalises to the empty
    string is looked up under the last header whose normalised form is
    empty; that header is returned when it is not "" itself, and when it
    is "", resolution goes on with the aliases. On tables whose headers
    are already stripped, as both loaders produce them, it never returns a
    header whose normalised form is empty, and a target and aliases that
    all normalise to the empty string resolve to nothing. *)
Theorem resolve_never_empty :
  (forall cols target aliases, resolve_column cols target aliases <> Some "") /\
  (forall pre h post target aliases,
     normalize_colname target = "" -> normalize_colname h = "" ->
     (forall c, In c post -> normalize_colname c <> "") ->
     (h <> "" -> resolve_column (pre ++ h :: post) target aliases = Some h) /\
     (h = "" -> resolve_column (pre ++ h :: post) target aliases =
                match aliases with
                | [] => None
                | a :: rest => resolve_column (pre ++ h :: post) a rest
                end)) /\
  (forall cols target aliases,
     Forall (fun c => strip c = c) cols ->
     forall h, resolve_column cols target aliases = Some h -> normalize_colname h <> "") /\
  (forall cols target aliases,
     Forall (fun c => strip c = c) cols ->
     Forall (fun w => normalize_colname w = "") (target :: aliases) ->
     resolve_column cols target aliases = None).
Proof.
  split; [|split; [|split]].
  - intros cols target aliases H. apply resolve_loop_truthy in H. discriminate.
  - intros pre h post target aliases Ht Hh Hp.
    unfold resolve_column; cbn [resolve_loop].
    rewrite Ht, (dict_last pre h post "" Hh Hp). split.
    + intros Hne. apply truthy_iff in Hne. now rewrite Hne.
    + intros ->. destruct aliases; reflexivity.
  - intros cols target aliases Hs h H Hn.
    pose proof (resolve_loop_truthy _ _ _ H) as T.
    apply resolve_loop_in in H as [Hin _].
    apply truthy_iff in T. apply T.
    apply normalize_stripped_empty; [|exact Hn].
    exact (proj1 (Forall_forall _ _) Hs h Hin).
  - intros cols target aliases Hs Hw.
    destruct (resolve_column cols target aliases) as [h|] eqn:H; [|reflexivity].
    exfalso. pose proof (resolve_loop_truthy _ _ _ H) as T.
    apply resolve_loop_in in H as [Hin [w [Hw' Hn]]].
    apply truthy_iff in T. apply T.
    apply normalize_stripped_empty; [exact (proj1 (Forall_forall _ _) Hs h Hin)|].
    rewrite Hn. exact (proj1 (Forall_forall _ _) Hw w Hw').
Qed.

(** * Further properties of [app.py] *)

(** ** [str.strip] *)

Lemma str_app_assoc : forall a b c : string, a ++ (b ++ c) = (a ++ b) ++ c.
Proof. induction a as [|x a IH]; intros b c; simpl; [reflexivity | now rewrite IH]. Qed.

Lemma str_app_nil_r : forall a : string, a ++ "" = a.
Proof. induction a as [|x a IH]; simpl; [reflexivity | now rewrite IH]. Qed.

Lemma rev_str_app : forall s acc, rev_str s acc = rev_str s "" ++ acc.
Proof.
  induction s as [|c s IH]; intros acc; simpl; [reflexivity|].
  rewrite IH, (IH (String c "")), <- str_app_assoc. reflexivity.
Qed.

Lemma rev_str_involutive : forall s, rev_str (rev_str s "") "" = s.
Proof.
  assert (G : forall s acc, rev_str (rev_str s acc) "" = rev_str acc "" ++ s).
  { induction s as [|c s IH]; intros acc; simpl.
    - rewrite str_app_nil_r. reflexivity.
    - rewrite IH. simpl. rewrite (rev_str_app acc (String c "")).
      rewrite <- str_app_assoc. reflexivity. }
  intros s; rewrite G; reflexivity.
Qed.

Lemma lstrip_first_ok : forall s, first_ok (lstrip s).
Proof.
  induction s as [|c s IH]; simpl; [exact I|].
  destruct (is_space c) eqn:E; [exact IH | exact E].
Qed.

Lemma lstrip_id : forall s, first_ok s -> lstrip s = s.
Proof. intros [|c s] H; simpl in *; [reflexivity | now rewrite H]. Qed.

Lemma first_ok_app : forall a b, a <> "" -> first_ok (a ++ b) -> first_ok a.
Proof. intros [|c a] b H; [contradiction | exact (fun x => x)]. Qed.

Lemma rev_str_nonempty : forall s, s <> "" -> rev_str s "" <> "".
Proof.
  intros s H E. apply H. rewrite <- (rev_str_involutive s), E. reflexivity.
Qed.

Lemma first_ok_rev_lstrip : forall w,
  first_ok (rev_str w "") -> first_ok (rev_str (lstrip w) "").
Proof.
  induction w as [|c w IH]; simpl; [auto|].
  destruct (is_space c); [|auto].
  intros H. destruct w as [|c' w'] eqn:Ew; [exact I|].
  apply IH. rewrite rev_str_app in H.
  apply first_ok_app in H; [exact H|]. apply rev_str_nonempty; discriminate.
Qed.

(** [str.strip] leaves a string alone when neither end is whitespace. *)
Lemma strip_id : forall s, first_ok s -> first_ok (rev_str s "") -> strip s = s.
Proof.
  intros s H1 H2; unfold strip.
  rewrite (lstrip_id s H1), (lstrip_id _ H2). apply rev_str_involutive.
Qed.

Lemma strip_idem : forall s, strip (strip s) = strip s.
Proof.
  intros s; apply strip_id.
  - unfold strip. apply first_ok_rev_lstrip. rewrite rev_str_involutive.
    apply lstrip_first_ok.
  - unfold strip. rewrite rev_str_involutive. apply lstrip_first_ok.
Qed.

(** ** The loaders *)

Lemma dropna_cols_columns : forall (P : string -> Prop) t,
  Forall P (columns t) -> P "" -> Forall P (columns (dropna_cols t)).
Proof.
  intros P t H He; unfold dropna_cols; simpl.
  apply Forall_map, Forall_forall; intros i _.
  destruct (Nat.lt_ge_cases i (List.length (columns t))) as [L|L].
  - apply (proj1 (Forall_forall _ _) H). apply nth_In; exact L.
  - rewrite nth_overflow by exact L. exact He.
Qed.

Lemma read_partner_sheet_stripped : forall sheet,
  Forall (fun c => strip c = c) (columns (read_partner_sheet sheet)).
Proof.
  intros sheet; unfold read_partner_sheet, dropna_rows, strip_headers; simpl.
  apply Forall_map, Forall_forall; intros c _; apply strip_idem.
Qed.

Lemma read_partner_sheet_live_stripped : forall values,
  Forall (fun c => strip c = c) (columns (read_partner_sheet_live values)).
Proof.
  intros [|hdr data]; [constructor|].
  unfold read_partner_sheet_live, dropna_rows; cbn [columns].
  apply dropna_cols_columns; [|reflexivity]. cbn [columns].
  apply Forall_map, Forall_forall; intros c _; apply strip_idem.
Qed.

Lemma resolve_stripped_nonblank : forall cols target aliases h,
  Forall (fun c => strip c = c) cols ->
  resolve_column cols target aliases = Some h -> normalize_colname h <> "".
Proof.
  intros cols target aliases h Hs H Hn.
  pose proof (resolve_loop_truthy _ _ _ H) as T.
  apply resolve_loop_in in H as [Hin _].
  apply truthy_iff in T. apply T.
  apply normalize_stripped_empty; [|exact Hn].
  exact (proj1 (Forall_forall _ _) Hs h Hin).
Qed.

(** Both loaders strip every header, so on a loaded sheet column
    resolution never picks a header that is blank after normalisation. *)
Theorem loaded_headers_stripped :
  (forall sheet, Forall (fun c => strip c = c) (columns (read_partner_sheet sheet))) /\
  (forall values, Forall (fun c => strip c = c) (columns (read_partner_sheet_live values))) /\
  (forall sheet target aliases h,
     resolve_column (columns (read_partner_sheet sheet)) target aliases = Some h ->
     normalize_colname h <> "") /\
  (forall values target aliases h,
     resolve_column (columns (read_partner_sheet_live values)) target aliases = Some h ->
     normalize_colname h <> "").
Proof.
  split; [exact read_partner_sheet_stripped|].
  split; [exact read_partner_sheet_live_stripped|].
  split; intros ? target aliases h;
    apply resolve_stripped_nonblank;
    [apply read_partner_sheet_stripped | apply read_partner_sheet_live_stripped].
Qed.

Lemma dropna_cols_no_rows : forall t, rows t = [] -> columns (dropna_cols t) = [].
Proof.
  intros t Ht; unfold dropna_cols; rewrite Ht; cbn [columns].
  assert (E : filter (col_has_value []) (seq 0 (List.length (columns t))) = []).
  { induction (seq 0 (List.length (columns t))); simpl; auto. }
  rewrite E; reflexivity.
Qed.

(** A sheet with no data rows (an empty live sheet, a live sheet with only
    its header row, an Excel sheet with no rows) loads with no columns at
    all: [dropna(axis=1, how="all")] drops every column of a frame without
    rows. [main] then reports both required columns missing. *)
Theorem no_rows_no_columns :
  (forall values, (List.length values <= 1)%nat ->
     columns (read_partner_sheet_live values) = [] /\
     missing_columns (columns (read_partner_sheet_live values)) = [PARTNER_COLUMN; RENEWAL_COLUMN]) /\
  (forall cols,
     columns (read_partner_sheet (mk_table cols [])) = [] /\
     missing_columns (columns (read_partner_sheet (mk_table cols []))) = [PARTNER_COLUMN; RENEWAL_COLUMN]).
Proof.
  split.
  - intros [|hdr [|r data]] H; simpl in H; [split; reflexivity | | lia].
    unfold read_partner_sheet_live, dropna_rows; cbn [columns].
    rewrite dropna_cols_no_rows by reflexivity. split; reflexivity.
  - intros cols; unfold read_partner_sheet, dropna_rows, strip_headers; cbn [columns].
    rewrite dropna_cols_no_rows by reflexivity. split; reflexivity.
Qed.

Lemma no_rows_no_columns_witness :
  (List.length [["Dealership Group Name"; "Actual renewal date"]] <= 1)%nat /\
  columns (read_partner_sheet_live [["Dealership Group Name"; "Actual renewal date"]]) = [].
Proof.
  split; [simpl; lia|].
  exact (proj1 (proj1 no_rows_no_columns [["Dealership Group Name"; "Actual renewal date"]]
                  ltac:(simpl; lia))).
Defined.

Lemma map_nth_seq_id : forall (A : Type) (l : list A) d,
  map (fun i => nth i l d) (seq 0 (List.length l)) = l.
Proof.
  intros A l d; induction l as [|x l IH]; simpl; [reflexivity|].
  f_equal. rewrite <- seq_shift, map_map. exact IH.
Qed.

Lemma filter_all_true : forall (A : Type) (f : A -> bool) l,
  (forall x, In x l -> f x = true) -> filter f l = l.
Proof.
  intros A f l; induction l as [|x l IH]; intros H; simpl; [reflexivity|].
  rewrite (H x (or_introl eq_refl)), IH; [reflexivity|].
  intros y Hy; apply H; now right.
Qed.

Lemma nth_map_in : forall (A B : Type) (f : A -> B) l i da db,
  (i < List.length l)%nat -> nth i (map f l) db = f (nth i l da).
Proof.
  intros A B f l i da db H.
  rewrite (nth_indep _ db (f da)) by (rewrite length_map; exact H).
  apply map_nth.
Qed.

(** With at least one data row and rows as long as the header row (as
    [get_all_values] returns them), the live loader keeps every row and
    every column: blank cells are empty strings, not missing values, so
    neither [dropna] removes anything, not even an entirely blank row. *)
Theorem live_sheet_keeps_rows : forall hdr data,
  hdr <> [] -> data <> [] ->
  Forall (fun r => List.length r = List.length hdr) data ->
  read_partner_sheet_live (hdr :: data) = mk_table (map strip hdr) (map (map CStr) data).
Proof.
  intros hdr data Hh Hd Hl.
  unfold read_partner_sheet_live, dropna_cols, dropna_rows; cbn [columns rows].
  assert (Hk : filter (col_has_value (map (map CStr) data))
                 (seq 0 (List.length (map strip hdr))) = seq 0 (List.length (map strip hdr))).
  { apply filter_all_true; intros i Hi. apply in_seq in Hi. rewrite length_map in Hi.
    destruct data as [|d0 data]; [contradiction|].
    unfold col_has_value; simpl. apply orb_true_iff; left.
    inversion Hl as [|? ? Hd0 _]; subst.
    rewrite (nth_map_in _ _ CStr d0 i "" CNA) by lia. reflexivity. }
  rewrite Hk, map_nth_seq_id. f_equal.
  assert (Hm : map (fun r => map (fun i => nth i r CNA) (seq 0 (List.length (map strip hdr))))
                 (map (map CStr) data) = map (map CStr) data).
  { transitivity (map (fun r => r) (map (map CStr) data)); [|apply map_id].
    apply map_ext_in; intros r Hr.
    apply in_map_iff in Hr as [d [<- Hd']].
    rewrite length_map, <- (proj1 (Forall_forall _ _) Hl d Hd').
    rewrite <- (length_map CStr d). apply map_nth_seq_id. }
  rewrite Hm, filter_all_true; [reflexivity|].
  intros r Hr. apply in_map_iff in Hr as [d [<- Hd']].
    pose proof (proj1 (Forall_forall _ _) Hl d Hd') as L.
    destruct d as [|x d]; [destruct hdr; [contradiction | discriminate]|].
    simpl. rewrite length_map in *. simpl. reflexivity.
Qed.

Lemma live_sheet_keeps_rows_witness :
  read_partner_sheet_live [["Dealership Group Name "; "Actual renewal date"]; [""; ""]]
  = mk_table ["Dealership Group Name"; "Actual renewal date"] [[CStr ""; CStr ""]].
Proof.
  refine (live_sheet_keeps_rows _ _ _ _ _); [discriminate | discriminate |].
  repeat constructor.
Defined.

Lemma negb_forallb : forall (A : Type) (f : A -> bool) l,
  negb (forallb f l) = existsb (fun x => negb (f x)) l.
Proof.
  intros A f l; induction l as [|x l IH]; simpl; [reflexivity|].
  rewrite negb_andb, IH; reflexivity.
Qed.

Lemma dropna_both : forall t,
  let t' := dropna_rows (dropna_cols t) in
  Forall (fun r => existsb (fun c => negb (is_na c)) r = true) (rows t') /\
  (forall i, (i < List.length (columns t'))%nat -> col_has_value (rows t') i = true).
Proof.
  intros t t'; subst t'. split.
  - unfold dropna_rows; cbn [rows]. apply Forall_forall; intros r Hr.
    apply filter_In in Hr as [_ Hr]. now rewrite negb_forallb in Hr.
  - unfold dropna_rows, dropna_cols; cbn [rows columns].
    set (ks := filter (col_has_value (rows t)) (seq 0 (List.length (columns t)))).
    intros i Hi; rewrite length_map in Hi.
    assert (Hk : In (nth i ks O) ks) by (apply nth_In; exact Hi).
    unfold ks in Hk; apply filter_In in Hk as [_ Hk].
    unfold col_has_value in Hk; apply existsb_exists in Hk as [r [Hr Hv]].
    set (pr := map (fun j => nth j r CNA) ks).
    assert (Hpr : nth i pr CNA = nth (nth i ks O) r CNA)
      by exact (nth_map_in _ _ (fun j => nth j r CNA) ks i O CNA Hi).
    unfold col_has_value; apply existsb_exists. exists pr; split.
    + apply filter_In; split; [exact (in_map (fun r0 => map (fun j => nth j r0 CNA) ks) _ _ Hr)|].
      rewrite negb_forallb. apply existsb_exists.
      exists (nth i pr CNA); split; [apply nth_In; unfold pr; rewrite length_map; exact Hi|].
      rewrite Hpr; exact Hv.
    + rewrite Hpr; exact Hv.
Qed.

(** After either loader no row is entirely missing and every column holds
    at least one non-missing cell. *)
Theorem loaded_no_empty_lines :
  (forall sheet,
     let t := read_partner_sheet sheet in
     Forall (fun r => existsb (fun c => negb (is_na c)) r = true) (rows t) /\
     (forall i, (i < List.length (columns t))%nat -> col_has_value (rows t) i = true)) /\
  (forall values,
     let t := read_partner_sheet_live values in
     Forall (fun r => existsb (fun c => negb (is_na c)) r = true) (rows t) /\
     (forall i, (i < List.length (columns t))%nat -> col_has_value (rows t) i = true)).
Proof.
  split.
  - intros sheet t; subst t. unfold read_partner_sheet.
    destruct (dropna_both sheet) as [H1 H2].
    unfold strip_headers, dropna_rows in *; cbn [rows columns] in *.
    split; [exact H1|]. intros i Hi; apply H2. rewrite length_map in Hi; exact Hi.
  - intros [|hdr data] t; subst t; [split; [constructor | intros i Hi; simpl in Hi; lia]|].
    apply dropna_both.
Qed.

(** ** Login *)

(** In a session that is not signed in (a fresh one, or one after
    logout), [require_login] never lets the dashboard run: it signs in,
    through [st.rerun()], exactly when the form is submitted with a name
    equal to "Alyx" after stripping and the PIN exactly "1020"; the stored
    viewer name is then "Alyx" whatever spacing was typed; a blank name is
    refused with "Name is required." whatever the PIN. *)
Theorem login_rule : forall s submit name pin,
  s_authenticated s <> Some true ->
  (forall v, snd (require_login s submit name pin) <> Proceed v) /\
  (snd (require_login s submit name pin) = Rerun <->
   submit = true /\ strip name = ALLOWED_NAME /\ pin = ALLOWED_PIN) /\
  (snd (require_login s submit name pin) = Rerun ->
   fst (require_login s submit name pin) = mk_session (Some true) (Some ALLOWED_NAME)) /\
  (submit = true -> strip name = "" ->
   snd (require_login s submit name pin) = Stopped (Some "Name is required.")).
Proof.
  intros s submit name pin Ha.
  assert (Hf : match s_authenticated s with Some b => b | None => false end = false)
    by (destruct (s_authenticated s) as [[]|]; congruence).
  unfold require_login; rewrite Hf.
  destruct submit; [|repeat split; try discriminate; intros [E _]; discriminate].
  destruct (truthy (strip name)) eqn:T; cbn [negb];
    [destruct (String.eqb_spec (strip name) ALLOWED_NAME) as [E1|E1],
       (String.eqb_spec pin ALLOWED_PIN) as [E2|E2]; cbn [negb orb] |];
    cbn [snd fst]; repeat split; intros;
    repeat match goal with H : _ /\ _ |- _ => destruct H end;
    try discriminate; try contradiction; auto;
    match goal with H : strip name = _ |- _ => rewrite H in T; discriminate T end.
Qed.

Lemma login_rule_witness :
  empty_session.(s_authenticated) <> Some true /\
  snd (require_login empty_session true "  Alyx " "1020") = Rerun.
Proof.
  split; [discriminate|].
  apply (proj2 (proj1 (proj2 (login_rule empty_session true "  Alyx " "1020"
                                 ltac:(discriminate))))).
  repeat split; reflexivity.
Defined.

Lemma login_invariant : forall s,
  reachable s -> s_authenticated s = Some true -> s_viewer_name s = Some ALLOWED_NAME.
Proof.
  intros s R; induction R as [|s submit name pin R IH|s R IH]; simpl.
  - discriminate.
  - unfold require_login.
    destruct (s_authenticated s) as [[]|] eqn:A; cbn [fst].
    + simpl. intros _. rewrite IH by reflexivity. reflexivity.
    + destruct submit; [|simpl; discriminate].
      destruct (negb (truthy (strip name))); [simpl; discriminate|].
      destruct (_ || _); simpl; [discriminate | auto].
    + destruct submit; [|simpl; discriminate].
      destruct (negb (truthy (strip name))); [simpl; discriminate|].
      destruct (_ || _); simpl; [discriminate | auto].
  - discriminate.
Qed.

(** In every session a browser can reach, a signed-in session holds the
    viewer name "Alyx", so the dashboard only ever runs for "Alyx": the
    name [require_login] returns is always "Alyx". *)
Theorem signed_in_as_allowed : forall s,
  reachable s ->
  (s_authenticated s = Some true -> s_viewer_name s = Some ALLOWED_NAME) /\
  (forall submit name pin v,
     snd (require_login s submit name pin) = Proceed v -> v = ALLOWED_NAME).
Proof.
  intros s R; split; [exact (login_invariant s R)|].
  intros submit name pin v; unfold require_login.
  destruct (s_authenticated s) as [[]|] eqn:A.
  - cbn [snd]. rewrite (login_invariant s R A). intros H; inversion H; reflexivity.
  - destruct submit; [|discriminate].
    destruct (negb (truthy (strip name))); [discriminate|].
    destruct (_ || _); discriminate.
  - destruct submit; [|discriminate].
    destruct (negb (truthy (strip name))); [discriminate|].
    destruct (_ || _); discriminate.
Qed.

Lemma signed_in_as_allowed_witness :
  reachable (fst (require_login empty_session true "Alyx" "1020")) /\
  (s_authenticated (fst (require_login empty_session true "Alyx" "1020")) = Some true ->
   s_viewer_name (fst (require_login empty_session true "Alyx" "1020")) = Some ALLOWED_NAME).
Proof.
  assert (R : reachable (fst (require_login empty_session true "Alyx" "1020")))
    by (apply reach_login; constructor).
  split; [exact R | exact (proj1 (signed_in_as_allowed _ R))].
Defined.

(** ** The required-column check of [main] and [normalize_partners] *)










(** Headers "CPL" and "CPL " collide once stripped: the check of [main]
    passes and [normalize_partners] raises. *)
Example duplicate_cpl_raises :
  missing_columns [PARTNER_COLUMN; RENEWAL_COLUMN; "CPL"; "CPL"] = [] /\
  normalize_partners mdy_fallback
    (mk_table [PARTNER_COLUMN; RENEWAL_COLUMN; "CPL"; "CPL"]
       [[CStr "A"; CStr "2024-01-01"; CNum "15"; CNum "18"]]) 0
  = Err (DuplicateLabel "CPL").
Proof. split; reflexivity. Qed.





(** ** Cohort tables, the summary table and the revenue metrics *)

Lemma normalize_partners_cohorts : forall fb tbl as_of out,
  normalize_partners fb tbl as_of = Ok out ->
  Forall (fun r => n_cohort r = FACEBOOK_COHORT \/ n_cohort r = OTHER_COHORT) out.
Proof.
  intros fb tbl as_of out H.
  destruct (normalize_partners_ok _ _ _ _ H) as [es [He _]].
  destruct (enriched_ok _ _ _ He) as (cols' & rc & _ & Hes).
  destruct (enrich_proj fb cols' rc (rows tbl)) as (_ & _ & _ & H4 & _).
  rewrite <- Hes in H4.
  apply Forall_forall; intros r Hr.
  pose proof (out_origin_in _ _ _ _ _ _ He H Hr) as Ho.
  apply (in_map e_cohort) in Ho. rewrite H4 in Ho. simpl in Ho.
  unfold cohort_col in Ho; destruct (has_column cols' "CPL").
  - apply in_map_iff in Ho as [v [Hv _]]. rewrite <- Hv. apply cohort_of_value_spec.
  - apply in_map_iff in Ho as [? [Hv _]]. right; now rewrite <- Hv.
Qed.

Lemma cohort_rows_perm : forall l,
  Forall (fun r => n_cohort r = FACEBOOK_COHORT \/ n_cohort r = OTHER_COHORT) l ->
  Permutation (cohort_rows FACEBOOK_COHORT l ++ cohort_rows OTHER_COHORT l) l.
Proof.
  intros l H; induction H as [|r l [E|E] _ IH]; simpl; [constructor| |];
    rewrite E; simpl.
  - now apply perm_skip.
  - apply Permutation_sym, Permutation_cons_app, Permutation_sym, IH.
Qed.

Lemma shown_display : forall cols l,
  shown_rows (display_partner_table cols l) = display_rows l.
Proof. intros cols [|r l]; reflexivity. Qed.

(** For any subset of the working table (a filtered bucket), the two
    tables of [display_bucket_by_cohort] together show each of its rows
    exactly once, and the cohort counts above them are their sizes. *)
Theorem cohort_tables_split : forall fb tbl as_of out cols l,
  normalize_partners fb tbl as_of = Ok out -> incl l out ->
  match display_bucket_by_cohort cols l with
  | (counts, fb_table, other_table) =>
      Permutation (shown_rows fb_table ++ shown_rows other_table) l /\
      counts = [(FACEBOOK_COHORT, List.length (shown_rows fb_table));
                (OTHER_COHORT, List.length (shown_rows other_table))]
  end.
Proof.
  intros fb tbl as_of out cols l H Hl.
  pose proof (normalize_partners_cohorts _ _ _ _ H) as Hc.
  assert (Hc' : Forall (fun r => n_cohort r = FACEBOOK_COHORT \/ n_cohort r = OTHER_COHORT) l)
    by (apply Forall_forall; intros r Hr; exact (proj1 (Forall_forall _ _) Hc r (Hl r Hr))).
  unfold display_bucket_by_cohort; rewrite !shown_display. split.
  - unfold display_rows.
    eapply Permutation_trans; [|exact (cohort_rows_perm l Hc')].
    apply Permutation_app; apply sort_by_perm.
  - unfold cohort_counts, display_rows; simpl.
    rewrite !(Permutation_length (sort_by_perm _ _ _)). reflexivity.
Qed.

Lemma cohort_tables_split_witness :
  normalize_partners mdy_fallback tbl_spec 0 =
    normalize_partners mdy_fallback tbl_spec 0 /\
  match normalize_partners mdy_fallback tbl_spec 0 with
  | Ok out =>
      match display_bucket_by_cohort (columns tbl_spec) out with
      | (counts, fb_table, other_table) =>
          Permutation (shown_rows fb_table ++ shown_rows other_table) out
      end
  | Err _ => True
  end.
Proof.
  split; [reflexivity|].
  destruct (normalize_partners mdy_fallback tbl_spec 0) as [out|] eqn:H; [|exact I].
  exact (proj1 (cohort_tables_split mdy_fallback tbl_spec 0 out (columns tbl_spec) out H
                  (incl_refl out))).
Defined.

Lemma bucket_counts : forall coh l,
  (List.length (cohort_rows coh (in_30 l)) + List.length (cohort_rows coh (in_60 l))
   + List.length (cohort_rows coh (in_90 l)) + List.length (cohort_rows coh (over_90 l))
   + List.length (cohort_rows coh (overdue l)) = List.length (cohort_rows coh l))%nat.
Proof.
  intros coh l; unfold in_30, in_60, in_90, over_90, overdue, renewal_bucket.
  induction l as [|r l IH]; [reflexivity|].
  pose proof (bucket_flags_one r) as F. cbn [filter].
  destruct (is_overdue r), (in_range 0 30 r), (in_range 31 60 r),
    (in_range 61 90 r), (is_over_90 r); simpl in F; try lia;
    unfold cohort_rows in *; cbn [filter];
    destruct (String.eqb (n_cohort r) coh); cbn [List.length]; lia.
Qed.

(** In the "Renewals by Cohort" table of [main], each cohort's [Total] is
    the number of its rows in the filtered working table; the two totals
    add up to the number of rows. *)
Theorem summary_totals : forall fb tbl as_of out l,
  normalize_partners fb tbl as_of = Ok out -> incl l out ->
  map sm_cohort (summary l) = [FACEBOOK_COHORT; OTHER_COHORT] /\
  map sm_total (summary l) =
    [List.length (cohort_rows FACEBOOK_COHORT l); List.length (cohort_rows OTHER_COHORT l)] /\
  fold_right Nat.add O (map sm_total (summary l)) = List.length l.
Proof.
  intros fb tbl as_of out l H Hl.
  assert (T : forall coh, sm_total (summary_row_of l coh) = List.length (cohort_rows coh l)).
  { intros coh; unfold summary_row_of; cbn [sm_total].
    rewrite <- (bucket_counts coh l). lia. }
  split; [reflexivity|].
  assert (E : map sm_total (summary l) =
    [List.length (cohort_rows FACEBOOK_COHORT l); List.length (cohort_rows OTHER_COHORT l)])
    by (unfold summary; cbn [map]; rewrite !T; reflexivity).
  split; [exact E|]. rewrite E; simpl.
  pose proof (normalize_partners_cohorts _ _ _ _ H) as Hc.
  assert (Hc' : Forall (fun r => n_cohort r = FACEBOOK_COHORT \/ n_cohort r = OTHER_COHORT) l)
    by (apply Forall_forall; intros r Hr; exact (proj1 (Forall_forall _ _) Hc r (Hl r Hr))).
  rewrite <- (Permutation_length (cohort_rows_perm l Hc')), length_app. lia.
Qed.

Lemma summary_totals_witness :
  match normalize_partners mdy_fallback tbl_spec 0 with
  | Ok out => fold_right Nat.add O (map sm_total (summary out)) = List.length out
  | Err _ => True
  end.
Proof.
  destruct (normalize_partners mdy_fallback tbl_spec 0) as [out|] eqn:H; [|exact I].
  exact (proj2 (proj2 (summary_totals mdy_fallback tbl_spec 0 out out H (incl_refl out)))).
Defined.

(** ** Days to renewal *)

(** With the as-of date normalised to midnight as [main] does it, the days
    to renewal are the difference of the calendar-day numbers (a renewal at
    any time of the as-of day counts 0); they grow with the renewal date. *)
Theorem days_calendar : forall t a,
  days_to_renewal t (normalize_ts a) = (t / DAY - a / DAY)%Z /\
  (forall t', (t <= t')%Z -> (days_to_renewal t a <= days_to_renewal t' a)%Z).
Proof.
  intros t a; split.
  - unfold days_to_renewal, normalize_ts.
    rewrite <- Z.mul_sub_distr_r. apply Z.div_mul. unfold DAY; lia.
  - intros t' H; unfold days_to_renewal.
    apply Z.div_le_mono; [unfold DAY; lia|].
    apply Z.sub_le_mono_r, Z.mul_le_mono_nonneg_r; [unfold DAY; lia|].
    apply Z.div_le_mono; [unfold DAY; lia | exact H].
Qed.

(** ** [apply_filters] *)

Lemma existsb_eqb_in : forall x l, existsb (String.eqb x) l = true <-> In x l.
Proof.
  intros x l; rewrite existsb_exists; split.
  - intros [y [Hy E]]; apply String.eqb_eq in E; now subst.
  - intros H; exists x; split; [exact H | apply String.eqb_refl].
Qed.

Lemma unique_aux_in : forall l seen x,
  In x (unique_aux seen l) <-> In x l /\ ~ In x seen.
Proof.
  induction l as [|y l IH]; intros seen x; simpl; [tauto|].
  destruct (existsb (String.eqb y) seen) eqn:E.
  - apply existsb_eqb_in in E. rewrite IH.
    split; [tauto|]. intros [[<-|H] N]; [contradiction | tauto].
  - assert (Ny : ~ In y seen) by (rewrite <- existsb_eqb_in, E; discriminate).
    simpl. rewrite IH. simpl.
    destruct (String.eqb_spec y x) as [<-|N]; [tauto|].
    split; [intros [H|[H1 H2]]; [contradiction | tauto] | intros [[H|H] H']; [contradiction | tauto]].
Qed.

Lemma unique_in : forall l x, In x (unique l) <-> In x l.
Proof. intros l x; unfold unique; rewrite unique_aux_in; simpl; tauto. Qed.

Lemma sorted_str_in : forall l x, In x (sorted_str l) <-> In x l.
Proof.
  intros l x; unfold sorted_str; split; apply Permutation_in;
    [|apply Permutation_sym]; apply sort_by_perm.
Qed.

Lemma member_in : forall x l, member x l = true <-> In x l.
Proof. intros; apply existsb_eqb_in. Qed.


Lemma is_na_false : forall c, is_na c = false <-> c <> CNA.
Proof. intros []; simpl; split; congruence. Qed.

Lemma rate_options_in : forall cols l x,
  In x (rate_options cols l) <->
  exists r, In r l /\ rate_cell cols r <> CNA /\ astype_str (rate_cell cols r) = x.
Proof.
  intros cols l x; unfold rate_options.
  rewrite sorted_str_in, unique_in, in_map_iff. split.
  - intros [c [E Hc]]. apply filter_In in Hc as [Hc N].
    apply in_map_iff in Hc as [r [<- Hr]].
    apply negb_true_iff, is_na_false in N. eauto.
  - intros [r [Hr [N E]]]. exists (rate_cell cols r); split; [exact E|].
    apply filter_In; split; [apply in_map; exact Hr|].
    apply negb_true_iff, is_na_false; exact N.
Qed.

Lemma filter_filter_and : forall (A : Type) (f g : A -> bool) l,
  filter f (filter g l) = filter (fun x => g x && f x) l.
Proof.
  intros A f g l; induction l as [|x l IH]; simpl; [reflexivity|].
  destruct (g x); simpl; [destruct (f x); simpl; now rewrite IH | exact IH].
Qed.

Lemma filter_true : forall (A : Type) (l : list A), filter (fun _ => true) l = l.
Proof. intros A l; induction l as [|x l IH]; simpl; [reflexivity | now rewrite IH]. Qed.

Ltac filter_step :=
  first [ exists (fun _ => true); symmetry; apply filter_true
        | eexists; reflexivity ].

(** Whatever the widgets return, [apply_filters] only deletes rows: its
    result is the working table with some rows removed, in the same order
    (so the bucket tables are subsets of the working table). *)
Theorem filters_only_delete : forall contains pick_risk pick_rate query cols l,
  exists p, apply_filters contains pick_risk pick_rate query cols l = filter p l.
Proof.
  intros contains pick_risk pick_rate query cols l; unfold apply_filters.
  assert (S1 : exists p, risk_filter pick_risk cols l = filter p l).
  { unfold risk_filter.
    destruct (resolve_column _ "Risk banding" []) as [h|]; [|filter_step].
    destruct (truthy h); [|filter_step].
    destruct (pick_risk _); filter_step. }
  destruct S1 as [p1 E1]; rewrite E1.
  set (l1 := filter p1 l).
  assert (S2 : exists p, rate_filter pick_rate cols l1 = filter p l1).
  { unfold rate_filter.
    destruct (has_column _ RATE_COLUMN); [|filter_step].
    destruct (pick_rate _); filter_step. }
  destruct S2 as [p2 E2]; rewrite E2.
  assert (S3 : forall l2, exists p, query_filter contains query cols l2 = filter p l2).
  { intros l2; unfold query_filter.
    destruct (has_column _ PARTNER_COLUMN); [|filter_step].
    destruct (truthy query); filter_step. }
  destruct (S3 (filter p2 l1)) as [p3 E3]; rewrite E3.
  unfold l1; rewrite !filter_filter_and. eauto.
Qed.



(** With the default selection, the "CPL or Flat Rate" filter keeps a row
    exactly when its cell is present, or when some present cell reads
    "nan" as text, or when every cell is missing: rows with a missing
    value (an empty Excel cell) are hidden by default. *)
Theorem rate_filter_default : forall cols l r,
  has_column (working_columns cols) RATE_COLUMN = true ->
  (In r (rate_filter (fun o => o) cols l) <->
   In r l /\
   (rate_cell cols r <> CNA \/
    (exists r', In r' l /\ rate_cell cols r' <> CNA /\ astype_str (rate_cell cols r') = "nan") \/
    Forall (fun r' => rate_cell cols r' = CNA) l)).
Proof.
  intros cols l r H; unfold rate_filter; rewrite H.
  destruct (rate_options cols l) as [|o os] eqn:O.
  - assert (B : Forall (fun r' => rate_cell cols r' = CNA) l).
    { apply Forall_forall; intros r' Hr'.
      destruct (rate_cell cols r') eqn:E; [reflexivity| | |];
      exfalso; assert (I : In (astype_str (rate_cell cols r')) (rate_options cols l))
        by (apply rate_options_in; exists r'; rewrite E; repeat split; [exact Hr' | discriminate]);
      rewrite O in I; exact I. }
    tauto.
  - rewrite <- O, filter_In, member_in, rate_options_in.
    assert (NB : ~ Forall (fun r' => rate_cell cols r' = CNA) l).
    { intros F. assert (I : In o (rate_options cols l)) by (rewrite O; now left).
      apply rate_options_in in I as [r' [Hr' [N _]]].
      exact (N (proj1 (Forall_forall _ _) F r' Hr')). }
    split.
    + intros [Hr [r' [Hr' [N E]]]]. split; [exact Hr|].
      destruct (rate_cell cols r) eqn:C; [|left; discriminate ..].
      right; left. exists r'; split; [exact Hr'|]. split; [exact N | rewrite E; reflexivity].
    + intros [Hr D]. split; [exact Hr|].
      destruct (rate_cell cols r) eqn:C.
      * destruct D as [N|[[r' [Hr' [N E]]]|F]]; [contradiction N; reflexivity | | contradiction].
        exists r'; split; [exact Hr'|]. split; [exact N|]. rewrite E; reflexivity.
      * exists r; split; [exact Hr|]. rewrite C; split; [discriminate | reflexivity].
      * exists r; split; [exact Hr|]. rewrite C; split; [discriminate | reflexivity].
      * exists r; split; [exact Hr|]. rewrite C; split; [discriminate | reflexivity].
Qed.

Lemma rate_filter_default_witness :
  has_column (working_columns [PARTNER_COLUMN; RATE_COLUMN]) RATE_COLUMN = true /\
  ~ In (mk_nrow [CStr "A"; CNA] (CStr "A") 0 OTHER_COHORT None 0)
       (rate_filter (fun o => o) [PARTNER_COLUMN; RATE_COLUMN]
          [mk_nrow [CStr "A"; CNA] (CStr "A") 0 OTHER_COHORT None 0;
           mk_nrow [CStr "B"; CStr "CPL"] (CStr "B") 0 OTHER_COHORT None 0]).
Proof.
  split; [reflexivity|].
  rewrite (rate_filter_default [PARTNER_COLUMN; RATE_COLUMN] _ _ eq_refl).
  intros [_ [N|[[r' [Hr' [N E]]]|F]]].
  - apply N; reflexivity.
  - destruct Hr' as [<-|[<-|[]]]; [apply N; reflexivity | discriminate E].
  - inversion F as [|? ? _ F']; inversion F'; discriminate.
Defined.

(** ** [normalize_colname] *)

Lemma lower_char_idem : forall c, lower_char (lower_char c) = lower_char c.
Proof.
  intros c; unfold lower_char at 2; cbv zeta.
  destruct ((65 <=? nat_of_ascii c) && (nat_of_ascii c <=? 90))%nat eqn:R; [|reflexivity].
  pose proof R as R0.
  apply andb_true_iff in R0 as [R1 R2]. apply Nat.leb_le in R1, R2.
  unfold lower_char; cbv zeta. rewrite R, nat_ascii_embedding by lia.
  replace (nat_of_ascii c + 32 <=? 90)%nat with false
    by (symmetry; apply Nat.leb_gt; lia).
  now rewrite andb_false_r.
Qed.

Lemma lower_idem : forall s, lower (lower s) = lower s.
Proof. induction s as [|c s IH]; simpl; [reflexivity | now rewrite lower_char_idem, IH]. Qed.

Lemma lower_app : forall a b, lower (a ++ b) = lower a ++ lower b.
Proof. induction a as [|c a IH]; intros b; simpl; [reflexivity | now rewrite IH]. Qed.

Lemma lstrip_lower : forall s, lstrip (lower s) = lower (lstrip s).
Proof.
  induction s as [|c s IH]; simpl; [reflexivity|].
  rewrite is_space_lower_char. destruct (is_space c); [exact IH | reflexivity].
Qed.

Lemma rev_str_lower : forall s acc, rev_str (lower s) (lower acc) = lower (rev_str s acc).
Proof.
  induction s as [|c s IH]; intros acc; simpl; [reflexivity|].
  rewrite <- IH. reflexivity.
Qed.

Lemma strip_lower : forall s, strip (lower s) = lower (strip s).
Proof.
  assert (R : forall x, rev_str (lower x) "" = lower (rev_str x "")) by
    (intros x; exact (rev_str_lower x "")).
  intros s; unfold strip.
  rewrite lstrip_lower, R, lstrip_lower, R. reflexivity.
Qed.

Lemma word_chars_app : forall a b, word_chars a -> word_chars b -> word_chars (a ++ b).
Proof.
  induction a as [|c a IH]; intros b Ha Hb; simpl in *; [exact Hb|].
  destruct Ha as [H1 [H2 H3]]. auto.
Qed.

Lemma word_chars_lower : forall w, word_chars w -> lower w = w.
Proof.
  induction w as [|c w IH]; simpl; [reflexivity|].
  intros [_ [H2 H3]]. now rewrite H2, IH.
Qed.

Lemma split_aux_word_chars : forall t cur,
  lower t = t -> word_chars cur ->
  Forall (fun w => w <> "" /\ word_chars w) (split_aux t cur).
Proof.
  induction t as [|c t IH]; intros cur Ht Hc; simpl.
  - destruct (String.eqb_spec cur ""); constructor; auto.
  - simpl in Ht; injection Ht as Hc' Ht'.
    destruct (is_space c) eqn:S.
    + destruct (String.eqb_spec cur "").
      * apply IH; [exact Ht' | exact I].
      * constructor; [auto | apply IH; [exact Ht' | exact I]].
    + apply IH; [exact Ht'|]. apply word_chars_app; [exact Hc|]. simpl; auto.
Qed.

Lemma split_aux_word : forall w rest cur,
  word_chars w -> split_aux (w ++ rest) cur = split_aux rest (cur ++ w).
Proof.
  induction w as [|c w IH]; intros rest cur Hw; simpl.
  - now rewrite str_app_nil_r.
  - destruct Hw as [S [_ Hw]]. rewrite S, IH by exact Hw.
    now rewrite <- str_app_assoc.
Qed.

Lemma concat_words_split : forall ws,
  Forall (fun w => w <> "" /\ word_chars w) ws ->
  split_aux (String.concat " " ws) "" = ws.
Proof.
  intros ws H; induction H as [|w ws [Hn Hw] Hws IH]; [reflexivity|].
  destruct ws as [|w2 ws].
  - simpl. rewrite <- (str_app_nil_r w) at 1. rewrite split_aux_word by exact Hw.
    simpl. destruct (String.eqb_spec w ""); [contradiction | reflexivity].
  - change (String.concat " " (w :: w2 :: ws)) with (w ++ " " ++ String.concat " " (w2 :: ws)).
    rewrite split_aux_word by exact Hw.
    change ("" ++ w) with w. change (" " ++ ?X) with (String " " X).
    cbn [split_aux]. replace (is_space " ") with true by reflexivity.
    destruct (String.eqb_spec w ""); [contradiction|]. now rewrite IH.
Qed.

Lemma concat_words_lower : forall ws,
  Forall (fun w => w <> "" /\ word_chars w) ws ->
  lower (String.concat " " ws) = String.concat " " ws.
Proof.
  intros ws H; induction H as [|w ws [Hn Hw] Hws IH]; [reflexivity|].
  destruct ws as [|w2 ws]; [simpl; now apply word_chars_lower|].
  change (String.concat " " (w :: w2 :: ws)) with (w ++ " " ++ String.concat " " (w2 :: ws)).
  rewrite !lower_app, word_chars_lower, IH by exact Hw. reflexivity.
Qed.

Lemma rev_str_app2 : forall a b acc, rev_str (a ++ b) acc = rev_str b (rev_str a acc).
Proof. induction a as [|c a IH]; intros b acc; simpl; [reflexivity | apply IH]. Qed.

Lemma rev_str_word : forall w acc, word_chars w -> word_chars acc -> word_chars (rev_str w acc).
Proof.
  induction w as [|c w IH]; intros acc Hw Ha; simpl in *; [exact Ha|].
  destruct Hw as [S [L Hw]]. apply IH; [exact Hw|]. simpl; auto.
Qed.

Lemma word_first_ok : forall w, word_chars w -> first_ok w.
Proof. intros [|c w] H; simpl in *; [exact I | apply H]. Qed.

Lemma first_ok_app_l : forall a b, a <> "" -> first_ok a -> first_ok (a ++ b).
Proof. intros [|c a] b H; [contradiction | exact (fun x => x)]. Qed.

Lemma concat_words_ends : forall ws,
  Forall (fun w => w <> "" /\ word_chars w) ws ->
  first_ok (String.concat " " ws) /\ first_ok (rev_str (String.concat " " ws) "").
Proof.
  intros ws H; induction H as [|w ws [Hn Hw] Hws IH]; [split; exact I|].
  destruct ws as [|w2 ws].
  - simpl. split; [now apply word_first_ok|].
    apply word_first_ok, rev_str_word; [exact Hw | exact I].
  - change (String.concat " " (w :: w2 :: ws)) with (w ++ " " ++ String.concat " " (w2 :: ws)).
    split.
    + apply first_ok_app_l; [exact Hn | now apply word_first_ok].
    + rewrite rev_str_app2, rev_str_app. simpl.
      rewrite rev_str_app.
      inversion Hws as [|? ? [Hn2 _] _]; subst.
      assert (Ne : String.concat " " (w2 :: ws) <> "").
      { destruct ws; simpl; [exact Hn2|]. destruct w2; [contradiction | discriminate]. }
      rewrite <- str_app_assoc.
      apply first_ok_app_l; [now apply rev_str_nonempty | exact (proj2 IH)].
Qed.

Lemma normalize_words : forall s,
  Forall (fun w => w <> "" /\ word_chars w) (split_ws (lower (strip s))).
Proof.
  intros s; unfold split_ws. apply split_aux_word_chars; [apply lower_idem | exact I].
Qed.

(** [normalize_colname] is idempotent and ignores case, so
    [resolve_column] finds the same header whether the target and the
    aliases are given as written or already normalised. *)
Theorem normalize_colname_idem :
  (forall s, normalize_colname (normalize_colname s) = normalize_colname s) /\
  (forall s, normalize_colname (lower s) = normalize_colname s) /\
  (forall cols target aliases,
     resolve_column cols (normalize_colname target) (map normalize_colname aliases) =
     resolve_column cols target aliases).
Proof.
  assert (Idem : forall s, normalize_colname (normalize_colname s) = normalize_colname s).
  { intros s. pose proof (normalize_words s) as W.
    destruct (concat_words_ends _ W) as [E1 E2].
    set (ws := split_ws (lower (strip s))) in *.
    assert (Hn : normalize_colname s = String.concat " " ws) by reflexivity.
    rewrite Hn. unfold normalize_colname.
    rewrite (strip_id _ E1 E2), (concat_words_lower _ W).
    unfold split_ws. rewrite (concat_words_split _ W). reflexivity. }
  split; [exact Idem|]. split.
  - intros s; unfold normalize_colname. rewrite strip_lower, lower_idem. reflexivity.
  - intros cols target aliases; unfold resolve_column.
    generalize (normalized_to_actual cols) as d.
    intros d. change (normalize_colname target :: map normalize_colname aliases)
      with (map normalize_colname (target :: aliases)).
    induction (target :: aliases) as [|w ws IH]; [reflexivity|].
    simpl. rewrite Idem. destruct (dict_get d (normalize_colname w)) as [m|];
      [destruct (truthy m); [reflexivity | exact IH] | exact IH].
Qed.
